(** * WiGLE CSV processor (Scripts/wigle_processor.py)

    A shallow embedding of the filtering and analysis core of the
    processor, and the properties its specification states about it.

    Conventions of the embedding:
    - a Python [str] is a [string] (the bytes of its UTF-8 text), compared
      and ordered byte by byte, which is the order of the code points;
    - a Python [float] is a primitive binary64 [float]; [+], [-], [*], [/]
      and the comparisons are the IEEE 754 ones Python uses;
    - a Python [int] is a [Z];
    - a call that may raise returns a [result]; a [dict] is a [gmap], a
      [set] a [gset];
    - a file is the text it holds; the [csv] module and the conversions
      between floats and text follow CPython 3.11, on ASCII text
      ([upper] and [float] leave other bytes alone). *)

From Stdlib Require Import ZArith Floats Ascii String List Bool Lia.
From Stdlib Require Import DecimalString DecimalFacts.
From stdpp Require Import gmap strings list sorting.

Set Warnings "-inexact-float".
Local Open Scope string_scope.
Local Open Scope Z_scope.

(** ** Exceptions *)

Inductive Exception : Type :=
| ValueError
| IndexError
| OverflowError
| ZeroDivisionError
| csv_Error.

Inductive result (A : Type) : Type :=
| Ok (a : A)
| Raise (e : Exception).

Arguments Ok {A} a.
Arguments Raise {A} e.

#[global] Instance result_ret : MRet result := fun A a => Ok a.

#[global] Instance result_bind : MBind result := fun A B k r =>
  match r with
  | Ok a => k a
  | Raise e => Raise e
  end.

(** ** The Python runtime the processor calls *)

Module Py.

(** [chr n], for the characters that cannot be written in a literal. *)
Definition chr (n : nat) : ascii := ascii_of_nat n.

Definition ord (c : ascii) : Z := Z.of_nat (nat_of_ascii c).

Definition str_of_char (c : ascii) : string := String c EmptyString.

Definition LF : ascii := chr 10.
Definition CR : ascii := chr 13.

(** Decimal text of a non-negative integer. *)
Definition str_of_nonneg (n : Z) : string :=
  NilZero.string_of_uint (N.to_uint (Z.to_N n)).

(** *** [float(int)]: the nearest binary64, ties to even; [OverflowError]
    beyond the largest finite value. *)
Definition float_of_int (z : Z) : result float :=
  match binary_normalize prec emax z 0 false with
  | S754_infinity _ => Raise OverflowError
  | sf => Ok (SF2Prim sf)
  end.

(** The binary64 nearest to [n / d] (ties to even) for [0 < n], [0 < d]:
    the quotient is taken with at least 63 bits and the remainder kept as
    a sticky location below them. *)
Definition round_ratio (s : bool) (n d : Z) : spec_float :=
  let k := Z.max 0 (Z.log2 d - Z.log2 n + 64) in
  let q := (n * 2 ^ k) / d in
  let r := (n * 2 ^ k) mod d in
  binary_round_aux prec emax s q (- k)
    (if r =? 0 then loc_Exact else loc_Inexact Lt).

(** *** [a / b] on two ints: the correctly rounded quotient. *)
Definition int_truediv (a b : Z) : result float :=
  if b =? 0 then Raise ZeroDivisionError
  else if a =? 0 then Ok (if b <? 0 then PrimFloat.neg_zero else PrimFloat.zero)
  else
    match round_ratio (xorb (a <? 0) (b <? 0)) (Z.abs a) (Z.abs b) with
    | S754_infinity _ => Raise OverflowError
    | sf => Ok (SF2Prim sf)
    end.

(** *** [int(x)] on a float: the integer part, rounding toward zero;
    [int(inf)] raises [OverflowError], [int(nan)] [ValueError]. *)
Definition int_of_float (x : float) : result Z :=
  match Prim2SF x with
  | S754_zero _ => Ok 0
  | S754_finite s m e =>
      let a := if 0 <=? e then Z.pos m * 2 ^ e else Z.pos m / 2 ^ (- e) in
      Ok (if s then - a else a)
  | S754_infinity _ => Raise OverflowError
  | S754_nan => Raise ValueError
  end.

(** [math.floor(x)], the rounding the specification names. *)
Definition floor_of_float (x : float) : result Z :=
  match Prim2SF x with
  | S754_zero _ => Ok 0
  | S754_finite s m e =>
      let v := if s then Z.neg m else Z.pos m in
      Ok (if 0 <=? e then v * 2 ^ e else v / 2 ^ (- e))
  | S754_infinity _ => Raise OverflowError
  | S754_nan => Raise ValueError
  end.

(** Rounding toward zero, said with [floor]: the floor of a value that
    is not negative, and minus the floor of the opposite of one that is. *)
Definition trunc_of_float (x : float) : result Z :=
  if (x <? 0)%float then i ← floor_of_float (- x)%float; Ok (- i)
  else floor_of_float x.

(** [math.isfinite(x)] *)
Definition is_finite (x : float) : bool :=
  match Prim2SF x with
  | S754_zero _ | S754_finite _ _ _ => true
  | _ => false
  end.

(** Nearest integer to [a / b] for [0 <= a], [0 < b], ties to even. *)
Definition round_half_even (a b : Z) : Z :=
  let q := a / b in
  let r := a mod b in
  match 2 * r ?= b with
  | Lt => q
  | Gt => q + 1
  | Eq => if Z.even q then q else q + 1
  end.

Definition two_digits (n : Z) : string :=
  str_of_nonneg (n / 10) +:+ str_of_nonneg (n mod 10).

(** *** [f"{x:.2f}"]: the exact value of [x] rounded to two decimals,
    ties to even, with the sign of [x] kept (so [-0.001] gives ["-0.00"]). *)
Definition format_2f (x : float) : string :=
  match Prim2SF x with
  | S754_nan => "nan"
  | S754_infinity s => (if s then "-" else "") +:+ "inf"
  | S754_zero s => (if s then "-" else "") +:+ "0.00"
  | S754_finite s m e =>
      let n :=
        if 0 <=? e then Z.pos m * 2 ^ e * 100
        else round_half_even (Z.pos m * 100) (2 ^ (- e)) in
      (if s then "-" else "") +:+ str_of_nonneg (n / 100) +:+ "." +:+ two_digits (n mod 100)
  end.

(** *** [repr(x)] of a float, which [str(x)] is too *)

(** [v = n / d] against [10 ^ t]. *)
Definition below_pow10 (n d t : Z) : bool :=
  if 0 <=? t then n <? d * 10 ^ t else n * 10 ^ (- t) <? d.

(** The [t] with [10 ^ t <= n / d < 10 ^ (t + 1)], for [0 < n], [0 < d]: an
    estimate from the binary logarithms, then a step up or down. *)
Definition floor_log10 (n d : Z) : Z :=
  let t0 := ((Z.log2 n - Z.log2 d) * 1233) / 4096 in
  if below_pow10 n d (t0 - 1) then t0 - 2
  else if below_pow10 n d t0 then t0 - 1
  else if below_pow10 n d (t0 + 1) then t0
  else if below_pow10 n d (t0 + 2) then t0 + 1
  else t0 + 2.

Definition str_of_digits (ds : list ascii) : string := string_of_list_ascii ds.

Fixpoint drop_zeros (l : list ascii) : list ascii :=
  match l with
  | c :: l' => if Ascii.eqb c "0" then drop_zeros l' else l
  | [] => []
  end.

Definition zeros (n : Z) : list ascii := repeat "0"%char (Z.to_nat n).

Definition digits_of (n : Z) : list ascii :=
  list_ascii_of_string (str_of_nonneg n).

(** The text of the digits [ds] with the decimal point after the first
    [decpt] of them, the way [repr] lays it out. *)
Definition layout (ds : list ascii) (decpt : Z) : string :=
  let n := Z.of_nat (length ds) in
  if (decpt <? -3) || (16 <? decpt) then
    let e := decpt - 1 in
    let mantissa :=
      match ds with
      | [] => []
      | [c] => [c]
      | c :: rest => c :: "."%char :: rest
      end in
    let etext := digits_of (Z.abs e) in
    str_of_digits
      (mantissa ++ "e"%char :: (if e <? 0 then "-"%char else "+"%char)
         :: (if Z.abs e <? 10 then "0"%char :: etext else etext))%list
  else if decpt <=? 0 then
    str_of_digits ("0"%char :: "."%char :: zeros (- decpt) ++ ds)%list
  else if n <=? decpt then
    str_of_digits (ds ++ zeros (decpt - n) ++ ["."%char; "0"%char])%list
  else
    str_of_digits
      (firstn (Z.to_nat decpt) ds ++ "."%char :: skipn (Z.to_nat decpt) ds)%list.

(** Whether the decimal [c * 10 ^ p] reads back as the float of magnitude
    [SF2Prim (S754_finite false m e)]. *)
Definition reads_back (m : positive) (e c p : Z) : bool :=
  let back :=
    if c =? 0 then S754_zero false
    else if 0 <=? p then round_ratio false (c * 10 ^ p) 1
    else round_ratio false c (10 ^ (- p)) in
  match back with
  | S754_finite _ m' e' => Pos.eqb m m' && (e =? e')
  | _ => false
  end.

(** The shortest digits that read back as the float, and among those the
    ones nearest to it: with [k] digits, [c] or [c + 1] at the place [p]. *)
Fixpoint shortest_digits (fuel : nat) (k : Z) (m : positive) (e n d t : Z) : Z * Z :=
  let p := t - (k - 1) in
  let N := if 0 <=? p then n else n * 10 ^ (- p) in
  let D := if 0 <=? p then d * 10 ^ p else d in
  let lo := N / D in
  let hi := lo + 1 in
  match fuel with
  | O => (lo, p)
  | S fuel' =>
      let ok_lo := reads_back m e lo p in
      let ok_hi := reads_back m e hi p in
      if ok_lo && ok_hi then
        match 2 * (N mod D) ?= D with
        | Lt => (lo, p)
        | Gt => (hi, p)
        | Eq => if Z.even lo then (lo, p) else (hi, p)
        end
      else if ok_lo then (lo, p)
      else if ok_hi then (hi, p)
      else shortest_digits fuel' (k + 1) m e n d t
  end.

Definition repr_float (x : float) : string :=
  match Prim2SF x with
  | S754_nan => "nan"
  | S754_infinity s => if s then "-inf" else "inf"
  | S754_zero s => if s then "-0.0" else "0.0"
  | S754_finite s m e =>
      let n := if 0 <=? e then Z.pos m * 2 ^ e else Z.pos m in
      let d := if 0 <=? e then 1 else 2 ^ (- e) in
      let '(c, p) := shortest_digits 17 1 m e n d (floor_log10 n d) in
      let all := digits_of c in
      let ds := rev (drop_zeros (rev all)) in
      (if s then "-" else "") +:+ layout ds (Z.of_nat (length all) + p)
  end.

(** *** Character classes of the C locale *)

Definition is_space (c : ascii) : bool :=
  ((9 <=? ord c) && (ord c <=? 13)) || (ord c =? 32).

Definition is_digit (c : ascii) : bool := (48 <=? ord c) && (ord c <=? 57).

Definition to_upper (c : ascii) : ascii :=
  if (97 <=? ord c) && (ord c <=? 122) then chr (nat_of_ascii c - 32) else c.

Definition to_lower (c : ascii) : ascii :=
  if (65 <=? ord c) && (ord c <=? 90) then chr (nat_of_ascii c + 32) else c.

(** *** [s.upper()], on the ASCII letters; other bytes are kept. *)
Fixpoint upper (s : string) : string :=
  match s with
  | EmptyString => EmptyString
  | String c s' => String (to_upper c) (upper s')
  end.

(** *** [float(s)] on text *)

(** Underscores may only stand between two digits; they are dropped
    before the number is read. [prev] is the character before [l]. *)
Fixpoint drop_underscores (prev : option ascii) (l : list ascii) : option (list ascii) :=
  let after_digit := match prev with Some p => is_digit p | None => false end in
  let after_underscore :=
    match prev with Some p => Ascii.eqb p "_" | None => false end in
  match l with
  | [] => if after_underscore then None else Some []
  | c :: l' =>
      if Ascii.eqb c "_" then
        if after_digit then drop_underscores (Some c) l' else None
      else if after_underscore && negb (is_digit c) then None
      else option_map (cons c) (drop_underscores (Some c) l')
  end.

Fixpoint drop_spaces (l : list ascii) : list ascii :=
  match l with
  | c :: l' => if is_space c then drop_spaces l' else l
  | [] => []
  end.

Definition strip (l : list ascii) : list ascii :=
  rev (drop_spaces (rev (drop_spaces l))).

Fixpoint span_digits (l : list ascii) : list ascii * list ascii :=
  match l with
  | c :: l' =>
      if is_digit c then let '(ds, r) := span_digits l' in (c :: ds, r)
      else ([], l)
  | [] => ([], [])
  end.

Definition int_of_digits (ds : list ascii) : Z :=
  fold_left (fun acc c => 10 * acc + (ord c - 48)) ds 0.

Definition split_sign (l : list ascii) : bool * list ascii :=
  match l with
  | c :: l' =>
      if Ascii.eqb c "-" then (true, l')
      else if Ascii.eqb c "+" then (false, l')
      else (false, l)
  | [] => (false, [])
  end.

(** The binary64 nearest to [D * 10 ^ e10], where [D] has at most [len]
    decimal digits. Beyond [1e310] the result is an infinity and below
    [1e-330] a zero whatever the digits are, so no power is computed there. *)
Definition float_of_decimal (neg : bool) (D len e10 : Z) : float :=
  if D =? 0 then (if neg then PrimFloat.neg_zero else PrimFloat.zero)
  else if 310 <=? e10 then (if neg then PrimFloat.neg_infinity else PrimFloat.infinity)
  else if e10 + len <? -330 then (if neg then PrimFloat.neg_zero else PrimFloat.zero)
  else if 0 <=? e10 then SF2Prim (round_ratio neg (D * 10 ^ e10) 1)
  else SF2Prim (round_ratio neg D (10 ^ (- e10))).

(** The exponent part: ["e"] or ["E"], an optional sign and at least one
    digit. [None] when [l] is not all of an exponent. *)
Definition exponent_part (l : list ascii) : option Z :=
  match l with
  | [] => Some 0
  | c :: l' =>
      if Ascii.eqb (to_lower c) "e" then
        let '(neg, l'') := split_sign l' in
        match span_digits l'' with
        | ((_ :: _) as ds, []) =>
            Some (if neg : bool then - int_of_digits ds else int_of_digits ds)
        | _ => None
        end
      else None
  end.

Definition number_part (neg : bool) (l : list ascii) : option float :=
  let '(ip, r) := span_digits l in
  let '(fp, r') :=
    match r with
    | c :: r0 => if Ascii.eqb c "." then span_digits r0 else ([], r)
    | [] => ([], [])
    end in
  match (ip ++ fp)%list with
  | [] => None
  | ds =>
      match exponent_part r' with
      | Some e =>
          Some (float_of_decimal neg (int_of_digits ds)
                  (Z.of_nat (length ds)) (e - Z.of_nat (length fp)))
      | None => None
      end
  end.

Definition inf_or_nan (neg : bool) (l : list ascii) : option float :=
  let w := string_of_list_ascii (map to_lower l) in
  if String.eqb w "inf" || String.eqb w "infinity" then
    Some (if neg then PrimFloat.neg_infinity else PrimFloat.infinity)
  else if String.eqb w "nan" then Some PrimFloat.nan
  else None.

Definition float_of_string (s : string) : result float :=
  match drop_underscores None (list_ascii_of_string s) with
  | None => Raise ValueError
  | Some l =>
      let '(neg, body) := split_sign (strip l) in
      match inf_or_nan neg body with
      | Some x => Ok x
      | None =>
          match number_part neg body with
          | Some x => Ok x
          | None => Raise ValueError
          end
      end
  end.

End Py.

(** ** WiGLERecord *)

Record WiGLERecord : Type := mkWiGLERecord {
  mac : string;
  ssid : string;
  auth_mode : string;
  first_seen : string;
  channel : string;
  rssi : string;
  latitude : float;
  longitude : float;
  altitude : string;
  accuracy : string;
  network_type : string
}.

(** [row[i]], which raises [IndexError] past the end of the row. *)
Definition item (row : list string) (i : nat) : result string :=
  match row !! i with
  | Some s => Ok s
  | None => Raise IndexError
  end.

(** The truth value of a string: it is not empty. *)
Definition truthy (s : string) : bool :=
  match s with
  | EmptyString => false
  | String _ _ => true
  end.

(** [float(row[i]) if row[i] else 0.0] *)
Definition coordinate (row : list string) (i : nat) : result float :=
  f ← item row i;
  if truthy f then Py.float_of_string f else Ok 0%float.

(** The body of the [try] of [from_csv_row]. *)
Definition build_record (row : list string) : result WiGLERecord :=
  lat ← coordinate row 6;
  lon ← coordinate row 7;
  r0 ← item row 0;
  r1 ← item row 1;
  r2 ← item row 2;
  r3 ← item row 3;
  r4 ← item row 4;
  r5 ← item row 5;
  r8 ← item row 8;
  r9 ← item row 9;
  r10 ← (if (10 <? length row)%nat then item row 10 else Ok "WIFI");
  Ok (mkWiGLERecord r0 r1 r2 r3 r4 r5 lat lon r8 r9 r10).

(** [WiGLERecord.from_csv_row]: [Ok None] is the [return None] of the
    length guard and of the handler of [ValueError] and [IndexError];
    any other exception would leave the function. *)
Definition from_csv_row (row : list string) : result (option WiGLERecord) :=
  if (length row <? 11)%nat then Ok None
  else
    match build_record row with
    | Ok r => Ok (Some r)
    | Raise ValueError | Raise IndexError => Ok None
    | Raise e => Raise e
    end.

(** ** LocationFilter *)

Record LocationFilter : Type := mkLocationFilter {
  my_lat : float;
  my_long : float;
  delta : float;
  lat_min : float;
  lat_max : float;
  long_min : float;
  long_max : float
}.

(** [LocationFilter.__init__] *)
Definition LocationFilter_init (my_lat my_long delta : float) : LocationFilter :=
  mkLocationFilter my_lat my_long delta
    (my_lat - delta)%float (my_lat + delta)%float
    (my_long - delta)%float (my_long + delta)%float.

(** [record.latitude == 0 and record.longitude == 0], the "no fix"
    sentinel; a negative zero compares equal to [0] as well. *)
Definition no_fix (record : WiGLERecord) : bool :=
  (latitude record =? 0)%float && (longitude record =? 0)%float.

Definition is_here (self : LocationFilter) (record : WiGLERecord) : bool :=
  if no_fix record then false
  else
    (lat_min self <=? latitude record)%float
    && (latitude record <=? lat_max self)%float
    && ((long_min self <=? longitude record)%float
        && (longitude record <=? long_max self)%float).

Definition is_not_here (self : LocationFilter) (record : WiGLERecord) : bool :=
  if no_fix record then false
  else negb (is_here self record).

(** ** FilterConfig *)

(** A compiled regular expression, as far as the filter uses it: whether
    [pattern.search(s)] finds a match. *)
Record Pattern : Type := mkPattern { search : string -> bool }.

Record FilterConfig : Type := mkFilterConfig {
  blocked_macs : gset string;
  blocked_ssids : gset string;
  blocked_patterns : list Pattern
}.

(** [FilterConfig.__init__] without a configuration file. *)
Definition FilterConfig_init : FilterConfig := mkFilterConfig ∅ ∅ [].

(** The JSON document of a configuration file, each key with its default. *)
Record ConfigDocument : Type := mkConfigDocument {
  doc_blocked_macs : list string;
  doc_blocked_ssids : list string;
  doc_blocked_patterns : list string
}.

Section LoadConfig.

(** [re.compile], [None] when it raises [re.error]. *)
Variable re_compile : string -> option Pattern.

(** The loop that compiles the patterns: an invalid one is skipped. *)
Fixpoint compile_patterns (acc : list Pattern) (sources : list string) : list Pattern :=
  match sources with
  | [] => acc
  | p :: sources' =>
      match re_compile p with
      | Some c => compile_patterns (acc ++ [c])%list sources'
      | None => compile_patterns acc sources'
      end
  end.

(** [FilterConfig.load_config], once the file is read as JSON. *)
Definition load_config (self : FilterConfig) (config : ConfigDocument) : FilterConfig :=
  mkFilterConfig
    (list_to_set (doc_blocked_macs config))
    (list_to_set (doc_blocked_ssids config))
    (compile_patterns (blocked_patterns self) (doc_blocked_patterns config)).

End LoadConfig.

(** The loop over [self.blocked_patterns] of [should_filter]. *)
Fixpoint any_pattern (patterns : list Pattern) (record : WiGLERecord) : bool :=
  match patterns with
  | [] => false
  | pattern :: patterns' =>
      if search pattern (ssid record) || search pattern (mac record) then true
      else any_pattern patterns' record
  end.

Definition should_filter (self : FilterConfig) (record : WiGLERecord) : bool :=
  if decide (Py.upper (mac record) ∈ blocked_macs self) then true
  else if decide (ssid record ∈ blocked_ssids self) then true
  else any_pattern (blocked_patterns self) record.

(** The configuration [create_sample_config] writes. *)
Definition sample_config : ConfigDocument :=
  mkConfigDocument
    ["FF:FF:FF:FF:FF:FF"; "aa:bb:cc:dd:ee:ff"]
    ["myssid"; "wardriver.uk"]
    ["MyCompany.*"; ".*test.*"].

(** ** CreepDetector *)

Module CreepDetector.

Record t : Type := mk {
  fudge_factor : Z;
  mac_locations : gmap string (gset string)
}.

(** [CreepDetector.__init__]; [fudge_factor] defaults to [100]. *)
Definition init (fudge_factor : Z) : t := mk fudge_factor ∅.

Definition default_fudge_factor : Z := 100.

(** [int((record.latitude * self.fudge_factor) + 0.5) / self.fudge_factor]:
    the int factor is converted to a float for the product, the sum is
    cut to an int, and the quotient of the two ints is a float again. *)
Definition rounded_lat (self : t) (record : WiGLERecord) : result float :=
  F ← Py.float_of_int (fudge_factor self);
  i ← Py.int_of_float (latitude record * F + 0.5)%float;
  Py.int_truediv i (fudge_factor self).

(** [int((record.longitude * self.fudge_factor) - 0.5) / self.fudge_factor] *)
Definition rounded_lon (self : t) (record : WiGLERecord) : result float :=
  F ← Py.float_of_int (fudge_factor self);
  i ← Py.int_of_float (longitude record * F - 0.5)%float;
  Py.int_truediv i (fudge_factor self).

(** The fingerprint [f"{lat:.2f} {lon:.2f}"] of a record. *)
Definition location (self : t) (record : WiGLERecord) : result string :=
  lat ← rounded_lat self record;
  lon ← rounded_lon self record;
  Ok (Py.format_2f lat +:+ " " +:+ Py.format_2f lon).

(** [self.mac_locations[mac].add(location)] on the [defaultdict(set)]. *)
Definition add_location (self : t) (mac location : string) : t :=
  mk (fudge_factor self)
     (<[mac := {[location]} ∪ default ∅ (mac_locations self !! mac)]>
        (mac_locations self)).

Definition add_record (self : t) (record : WiGLERecord) : result t :=
  if no_fix record then Ok self
  else
    loc ← location self record;
    Ok (add_location self (mac record) loc).

(** The order of the tuples [(count, mac)]: counts first, then the MACs
    as strings. *)
Definition tuple_leb (x y : Z * string) : bool :=
  (x.1 <? y.1) || ((x.1 =? y.1) && String.leb x.2 y.2).

(** [x] may stand before [y] in a list sorted with [reverse=True]. *)
Definition descending (x y : Z * string) : Prop := tuple_leb y x = true.

#[global] Instance descending_dec x y : Decision (descending x y).
Proof. unfold descending. apply _. Defined.

(** [sorted(results, reverse=True)] *)
Definition sorted_reverse (results : list (Z * string)) : list (Z * string) :=
  merge_sort descending results.

(** The loop over [self.mac_locations.items()]. *)
Fixpoint collect (items : list (string * gset string)) (min_locations : Z)
  : list (Z * string) :=
  match items with
  | [] => []
  | (mac, locations) :: items' =>
      if Z.of_nat (size locations) >=? min_locations
      then (Z.of_nat (size locations), mac) :: collect items' min_locations
      else collect items' min_locations
  end.

Definition get_multi_location_devices (self : t) (min_locations : Z)
  : list (Z * string) :=
  sorted_reverse (collect (map_to_list (mac_locations self)) min_locations).

(** The loop [for record in all_records: detector.add_record(record)] of
    [main]. *)
Fixpoint add_records (self : t) (records : list WiGLERecord) : result t :=
  match records with
  | [] => Ok self
  | record :: records' => self' ← add_record self record; add_records self' records'
  end.

End CreepDetector.

(** The fingerprint in the words of the specification, for a rounding
    [round] of a float to an integer: the specification names [floor]. *)
Definition spec_location (round : float -> result Z) (F : Z) (record : WiGLERecord)
  : result string :=
  Ff ← Py.float_of_int F;
  ilat ← round (latitude record * Ff + 0.5)%float;
  lat ← Py.int_truediv ilat F;
  ilon ← round (longitude record * Ff - 0.5)%float;
  lon ← Py.int_truediv ilon F;
  Ok (Py.format_2f lat +:+ " " +:+ Py.format_2f lon).

(** ** EncryptionAnalyzer *)

Module EncryptionAnalyzer.

Record t : Type := mk {
  encryption_counts : gmap string Z;
  unique_networks : gset string
}.

Definition init : t := mk ∅ ∅.

(** [f"{record.mac} {record.ssid}"] *)
Definition network_id (record : WiGLERecord) : string :=
  mac record +:+ " " +:+ ssid record.

(** [counter[key]], which is [0] for a key the [Counter] does not hold. *)
Definition counter_get (counter : gmap string Z) (key : string) : Z :=
  default 0 (counter !! key).

Definition add_record (self : t) (record : WiGLERecord) : t :=
  if decide (network_id record ∈ unique_networks self) then self
  else
    mk (<[auth_mode record := counter_get (encryption_counts self) (auth_mode record) + 1]>
          (encryption_counts self))
       ({[network_id record]} ∪ unique_networks self).

Record Stats : Type := mkStats {
  count : Z;
  percentage : float;
  total : Z
}.

(** [sum(self.encryption_counts.values())] *)
Definition sum_values (counter : gmap string Z) : Z :=
  foldr Z.add 0 (snd <$> map_to_list counter).

(** [(count / total) * 100] and the entry built from it. *)
Definition stats_entry (count total : Z) : result Stats :=
  ratio ← Py.int_truediv count total;
  Ok (mkStats count (ratio * 100)%float total).

(** The loop over [self.encryption_counts.items()]. *)
Fixpoint stats_loop (items : list (string * Z)) (total : Z) (stats : gmap string Stats)
  : result (gmap string Stats) :=
  match items with
  | [] => Ok stats
  | (enc_type, count) :: items' =>
      entry ← stats_entry count total;
      stats_loop items' total (<[enc_type := entry]> stats)
  end.

Definition get_stats (self : t) : result (gmap string Stats) :=
  let total := sum_values (encryption_counts self) in
  if total =? 0 then Ok ∅
  else stats_loop (map_to_list (encryption_counts self)) total ∅.

(** The analyzers the program can reach: records added to a fresh one. *)
Inductive reachable : t -> Prop :=
| reachable_init : reachable init
| reachable_add self record : reachable self -> reachable (add_record self record).

End EncryptionAnalyzer.

(** ** The [csv] module, in its default (excel) dialect

    The delimiter is a comma, the quote character a double quote that is
    doubled inside a quoted field, a field is quoted only when it has to
    be, there is no escape character, and the writer ends a row with a
    carriage return and a line feed. *)

Module Csv.

Definition delimiter : ascii := ",".
Definition quotechar : ascii := Py.chr 34.
Definition lineterminator : string :=
  String Py.CR (String Py.LF EmptyString).
Definition field_size_limit : Z := 131072.

Definition is_newline (c : ascii) : bool :=
  Ascii.eqb c Py.LF || Ascii.eqb c Py.CR.

(** *** The writer *)

(** A character that makes the writer quote its field. *)
Definition special (c : ascii) : bool :=
  Ascii.eqb c delimiter || Ascii.eqb c quotechar || is_newline c.

Fixpoint has_special (s : string) : bool :=
  match s with
  | EmptyString => false
  | String c s' => special c || has_special s'
  end.

Fixpoint double_quotes (s : string) : string :=
  match s with
  | EmptyString => EmptyString
  | String c s' =>
      if Ascii.eqb c quotechar then String c (String c (double_quotes s'))
      else String c (double_quotes s')
  end.

Definition quoted (s : string) : string :=
  String quotechar (double_quotes s +:+ String quotechar EmptyString).

Definition write_field (s : string) : string :=
  if has_special s then quoted s else s.

Fixpoint join_fields (fields : list string) : string :=
  match fields with
  | [] => EmptyString
  | [f] => write_field f
  | f :: fields' => write_field f +:+ String delimiter (join_fields fields')
  end.

(** [writer.writerow(fields)]: the text written. A row of one empty field
    is written as a pair of quotes. *)
Definition writerow (fields : list string) : string :=
  match fields with
  | [EmptyString] => quoted EmptyString +:+ lineterminator
  | _ => join_fields fields +:+ lineterminator
  end.

(** *** The reader *)

Inductive ParserState : Type :=
| START_RECORD
| START_FIELD
| IN_FIELD
| IN_QUOTED_FIELD
| QUOTE_IN_QUOTED_FIELD
| EAT_CRNL.

(** The reader between two characters: the fields of the row so far and
    the characters of the field so far, both latest first. *)
Record Reader : Type := mkReader {
  state : ParserState;
  fields : list string;
  field : list ascii
}.

Definition parse_reset : Reader := mkReader START_RECORD [] [].

Definition parse_save_field (self : Reader) (next : ParserState) : Reader :=
  mkReader next (string_of_list_ascii (rev (field self)) :: fields self) [].

Definition parse_add_char (self : Reader) (c : ascii) (next : ParserState)
  : result Reader :=
  if field_size_limit <=? Z.of_nat (length (field self)) then Raise csv_Error
  else Ok (mkReader next (fields self) (c :: field self)).

Definition goto (self : Reader) (next : ParserState) : Reader :=
  mkReader next (fields self) (field self).

(** A character of a line, or the end of the line. *)
Inductive Input : Type :=
| Char (c : ascii)
| EOL.

Definition ends_row (i : Input) : bool :=
  match i with
  | Char c => is_newline c
  | EOL => true
  end.

Definition after_row (i : Input) : ParserState :=
  match i with
  | Char _ => EAT_CRNL
  | EOL => START_RECORD
  end.

Definition start_field (self : Reader) (i : Input) : result Reader :=
  match i with
  | Char c =>
      if is_newline c then Ok (parse_save_field self EAT_CRNL)
      else if Ascii.eqb c quotechar then Ok (goto self IN_QUOTED_FIELD)
      else if Ascii.eqb c delimiter then Ok (parse_save_field self START_FIELD)
      else parse_add_char self c IN_FIELD
  | EOL => Ok (parse_save_field self START_RECORD)
  end.

Definition parse_process_char (self : Reader) (i : Input) : result Reader :=
  match state self with
  | START_RECORD =>
      match i with
      | EOL => Ok self
      | Char c =>
          if is_newline c then Ok (goto self EAT_CRNL)
          else start_field self i
      end
  | START_FIELD => start_field self i
  | IN_FIELD =>
      match i with
      | Char c =>
          if is_newline c then Ok (parse_save_field self EAT_CRNL)
          else if Ascii.eqb c delimiter then Ok (parse_save_field self START_FIELD)
          else parse_add_char self c IN_FIELD
      | EOL => Ok (parse_save_field self START_RECORD)
      end
  | IN_QUOTED_FIELD =>
      match i with
      | EOL => Ok self
      | Char c =>
          if Ascii.eqb c quotechar then Ok (goto self QUOTE_IN_QUOTED_FIELD)
          else parse_add_char self c IN_QUOTED_FIELD
      end
  | QUOTE_IN_QUOTED_FIELD =>
      match i with
      | Char c =>
          if Ascii.eqb c quotechar then parse_add_char self c IN_QUOTED_FIELD
          else if Ascii.eqb c delimiter then Ok (parse_save_field self START_FIELD)
          else if is_newline c then Ok (parse_save_field self EAT_CRNL)
          else parse_add_char self c IN_FIELD
      | EOL => Ok (parse_save_field self START_RECORD)
      end
  | EAT_CRNL =>
      match i with
      | Char c => if is_newline c then Ok self else Raise csv_Error
      | EOL => Ok (goto self START_RECORD)
      end
  end.

Fixpoint parse_line (self : Reader) (line : string) : result Reader :=
  match line with
  | EmptyString => parse_process_char self EOL
  | String c line' =>
      self' ← parse_process_char self (Char c);
      parse_line self' line'
  end.

(** The rows [csv.reader(lines)] yields: a row is complete when the
    parser is back at the start of a record after a line; when the lines
    end inside a row, the row is yielded as far as it was read. *)
Fixpoint read_rows (self : Reader) (lines : list string) : result (list (list string)) :=
  match lines with
  | [] =>
      match field self, state self with
      | [], IN_QUOTED_FIELD | _ :: _, _ =>
          Ok [rev (fields (parse_save_field self START_RECORD))]
      | [], _ => Ok []
      end
  | line :: lines' =>
      self' ← parse_line self line;
      match state self' with
      | START_RECORD =>
          rows ← read_rows parse_reset lines';
          Ok (rev (fields self') :: rows)
      | _ => read_rows self' lines'
      end
  end.

Definition reader (lines : list string) : result (list (list string)) :=
  read_rows parse_reset lines.

End Csv.

(** ** Text files *)

(** Reading in text mode with the default [newline=None]: each carriage
    return, with the line feed after it if there is one, becomes a line
    feed. *)
Fixpoint universal_newlines (s : string) : string :=
  match s with
  | EmptyString => EmptyString
  | String c s' =>
      if Ascii.eqb c Py.CR then
        match s' with
        | String c' s'' =>
            if Ascii.eqb c' Py.LF then String Py.LF (universal_newlines s'')
            else String Py.LF (universal_newlines s')
        | EmptyString => String Py.LF EmptyString
        end
      else String c (universal_newlines s')
  end.

(** [f.readlines()] on the translated text: each line keeps its line feed;
    [line] holds the characters of the line so far, latest first. *)
Fixpoint split_lines (line : list ascii) (s : string) : list string :=
  match s with
  | EmptyString =>
      match line with
      | [] => []
      | _ => [string_of_list_ascii (rev line)]
      end
  | String c s' =>
      if Ascii.eqb c Py.LF then string_of_list_ascii (rev (c :: line)) :: split_lines [] s'
      else split_lines (c :: line) s'
  end.

Definition readlines (content : string) : list string :=
  split_lines [] (universal_newlines content).

(** [sub in s] *)
Fixpoint contains (sub s : string) : bool :=
  String.prefix sub s ||
  match s with
  | EmptyString => false
  | String _ s' => contains sub s'
  end.

(** ** WiGLEProcessor *)

(** [line.startswith('MAC,SSID') or 'MAC' in line and 'SSID' in line] *)
Definition is_header (line : string) : bool :=
  String.prefix "MAC,SSID" line || (contains "MAC" line && contains "SSID" line).

(** The loop that looks for the header: [i + 1] for the first header
    line, at index [i]; [0] when there is none. *)
Fixpoint find_data_start (i : nat) (lines : list string) : nat :=
  match lines with
  | [] => 0%nat
  | line :: lines' => if is_header line then S i else find_data_start (S i) lines'
  end.

(** The loop over the rows of the reader. *)
Fixpoint parse_rows (rows : list (list string)) : result (list WiGLERecord) :=
  match rows with
  | [] => Ok []
  | row :: rows' =>
      match row with
      | [] => parse_rows rows'
      | _ =>
          if (length row <? 11)%nat then parse_rows rows'
          else
            record ← from_csv_row row;
            records ← parse_rows rows';
            match record with
            | Some r => Ok (r :: records)
            | None => Ok records
            end
      end
  end.

(** [read_csv_file], on the text of the file. *)
Definition read_csv_file (content : string) : result (list WiGLERecord) :=
  let lines := readlines content in
  let data_start := find_data_start 0 lines in
  rows ← Csv.reader (drop data_start lines);
  parse_rows rows.

Definition header_lines : string :=
  "WiGLE.net Python Processor" +:+ Py.str_of_char Py.LF +:+
  "MAC,SSID,AuthMode,FirstSeen,Channel,RSSI,CurrentLatitude,CurrentLongitude,AltitudeMeters,AccuracyMeters,Type"
  +:+ Py.str_of_char Py.LF.

(** The row [write_csv_file] hands to the writer; the writer turns the two
    floats into text with [str]. *)
Definition row_of_record (record : WiGLERecord) : list string :=
  [mac record; ssid record; auth_mode record;
   first_seen record; channel record; rssi record;
   Py.repr_float (latitude record); Py.repr_float (longitude record);
   altitude record; accuracy record; network_type record].

Fixpoint write_rows (records : list WiGLERecord) : string :=
  match records with
  | [] => EmptyString
  | record :: records' => Csv.writerow (row_of_record record) +:+ write_rows records'
  end.

(** [write_csv_file]: the text of the file it writes. The file is opened
    with [newline=''], so the text is written as it is. *)
Definition write_csv_file (records : list WiGLERecord) : string :=
  header_lines +:+ write_rows records.

(** [filter_records]; [location_mode] is [None], ['here'] or ['not_here']
    (any other text filters nothing by location). *)
Fixpoint filter_records (filter_config : option FilterConfig)
    (location_filter : option LocationFilter) (location_mode : option string)
    (records : list WiGLERecord) : list WiGLERecord :=
  match records with
  | [] => []
  | record :: records' =>
      let rest := filter_records filter_config location_filter location_mode records' in
      let denied :=
        match filter_config with
        | Some c => should_filter c record
        | None => false
        end in
      let outside :=
        match location_filter, location_mode with
        | Some f, Some mode =>
            if truthy mode then
              if String.eqb mode "here" && negb (is_here f record) then true
              else if String.eqb mode "not_here" && negb (is_not_here f record) then true
              else false
            else false
        | _, _ => false
        end in
      if denied then rest else if outside then rest else record :: rest
  end.

(** * Inputs and predicates of the statements *)

(** The row of the specification's geofence example. *)
Definition home_row : list string :=
  ["AA:BB:CC:DD:EE:01"; "HomeWifi"; "WPA2"; "2023-01-01"; "6"; "-50";
   "40.0010"; "-74.0010"; "10"; "5"; "WIFI"].

Definition home_record : WiGLERecord :=
  mkWiGLERecord "AA:BB:CC:DD:EE:01" "HomeWifi" "WPA2" "2023-01-01" "6" "-50"
    40.001 (-74.001) "10" "5" "WIFI".

(** A record without a fix. *)
Definition lost_record : WiGLERecord :=
  mkWiGLERecord "AA:BB:CC:DD:EE:03" "Nowhere" "WEP" "2023-01-02" "1" "-80"
    0 0 "" "" "WIFI".

Definition home_filter : LocationFilter := LocationFilter_init 40.001 (-74.001) 0.001.

(** What [float(row[i]) if row[i] else 0.0] yields for the field [s]. *)
Definition coordinate_of (s : string) (x : float) : Prop :=
  (s = "" /\ x = 0%float) \/ Py.float_of_string s = Ok x.

(** A row whose latitude is not a number. *)
Definition garbled_row : list string :=
  ["AA:BB:CC:DD:EE:01"; "HomeWifi"; "WPA2"; "2023-01-01"; "6"; "-50";
   "north"; "-74.0010"; "10"; "5"; "WIFI"].

(** A row whose coordinates are left empty. *)
Definition blank_row : list string :=
  ["AA:BB:CC:DD:EE:03"; "Nowhere"; "WEP"; "2023-01-02"; "1"; "-80";
   ""; ""; ""; ""; "WIFI"].

(** A pattern that finds the text ["Wifi"]. *)
Definition wifi_pattern : Pattern := mkPattern (contains "Wifi").

Definition home_config : FilterConfig :=
  mkFilterConfig {["AA:BB:CC:DD:EE:01"]} ∅ [].

(** The configuration with the lower-case MAC of the sample configuration. *)
Definition lower_case_config : ConfigDocument :=
  mkConfigDocument ["aa:bb:cc:dd:ee:ff"] [] [].

Definition lower_case_record : WiGLERecord :=
  mkWiGLERecord "aa:bb:cc:dd:ee:ff" "Cafe" "WPA2" "2023-01-01" "6" "-50"
    40.001 (-74.001) "10" "5" "WIFI".

(** The rank of the tuples, in the words of the claim: a larger count
    first and, for equal counts, a MAC that is not smaller first. *)
Definition ranks_before (x y : Z * string) : Prop :=
  y.1 < x.1 \/ (y.1 = x.1 /\ String.leb y.2 x.2 = true).

(** A sighting west of Greenwich, the first one of the specification's
    creep example. *)
Definition west_record : WiGLERecord :=
  mkWiGLERecord "AA:BB:CC:DD:EE:02" "Van" "WPA2" "2023-01-01" "6" "-50"
    40 (-74) "10" "5" "WIFI".

(** [record'] carries the MAC and the coordinates of [record]. *)
Definition same_sighting (record record' : WiGLERecord) : Prop :=
  mac record' = mac record /\
  latitude record' = latitude record /\
  longitude record' = longitude record.

(** The first sighting again, under another network name and at another
    time. *)
Definition west_record_renamed : WiGLERecord :=
  mkWiGLERecord "AA:BB:CC:DD:EE:02" "Truck" "WEP" "2023-01-03" "11" "-70"
    40 (-74) "12" "8" "WIFI".

Definition fresh_detector : CreepDetector.t :=
  CreepDetector.init CreepDetector.default_fudge_factor.

(** The specification's example: two sightings of one MAC, at (40, -74)
    and (40.5, -74.5), are reported as two locations. *)
Definition west_record_later : WiGLERecord :=
  mkWiGLERecord "AA:BB:CC:DD:EE:02" "Van" "WPA2" "2023-01-02" "6" "-50"
    40.5 (-74.5) "10" "5" "WIFI".

(** Three sightings of one network, the specification's example. *)
Definition three_sightings : EncryptionAnalyzer.t :=
  EncryptionAnalyzer.add_record
    (EncryptionAnalyzer.add_record
       (EncryptionAnalyzer.add_record EncryptionAnalyzer.init home_record)
       home_record)
    home_record.

(** A network whose name holds a carriage return. *)
Definition guest_record : WiGLERecord :=
  mkWiGLERecord "AA:BB:CC:DD:EE:04"
    ("Guest" +:+ Py.str_of_char Py.CR +:+ "Net")
    "WPA2" "2023-01-01" "6" "-50" 40.001 (-74.001) "10" "5" "WIFI".

(** What comes back for it: the carriage return is a line feed. *)
Definition guest_record_read : WiGLERecord :=
  mkWiGLERecord "AA:BB:CC:DD:EE:04"
    ("Guest" +:+ Py.str_of_char Py.LF +:+ "Net")
    "WPA2" "2023-01-01" "6" "-50" 40.001 (-74.001) "10" "5" "WIFI".

Definition no_cr (l : list ascii) : Prop := Forall (fun c => c <> Py.CR) l.

Definition no_cr_str (s : string) : Prop := no_cr (list_ascii_of_string s).

(** The reader holds no carriage return as long as it reads none. *)
Definition reader_no_cr (self : Csv.Reader) : Prop :=
  no_cr (Csv.field self) /\ Forall no_cr_str (Csv.fields self).

(** The characters of a text as the reader meets them when the text is
    cut into lines: the end of a line follows every line feed. *)
Fixpoint line_inputs (s : string) : list Csv.Input :=
  match s with
  | EmptyString => []
  | String c s' =>
      if Ascii.eqb c Py.LF then Csv.Char c :: Csv.EOL :: line_inputs s'
      else Csv.Char c :: line_inputs s'
  end.

(** The same for a whole file; [pending] tells whether the last line has
    characters and no line feed yet, which ends it at the end of the file. *)
Fixpoint file_inputs (pending : bool) (s : string) : list Csv.Input :=
  match s with
  | EmptyString => if pending then [Csv.EOL] else []
  | String c s' =>
      if Ascii.eqb c Py.LF then Csv.Char c :: Csv.EOL :: file_inputs false s'
      else Csv.Char c :: file_inputs true s'
  end.

(** The reader run over such a sequence: a row is complete when an end of
    line leaves the parser at the start of a record. *)
Fixpoint run (self : Csv.Reader) (inputs : list Csv.Input) : result (list (list string)) :=
  match inputs with
  | [] => Csv.read_rows self []
  | i :: inputs' =>
      self' ← Csv.parse_process_char self i;
      match i, Csv.state self' with
      | Csv.EOL, Csv.START_RECORD =>
          rows ← run Csv.parse_reset inputs';
          Ok (rev (Csv.fields self') :: rows)
      | _, _ => run self' inputs'
      end
  end.

(** A field the reader takes: at most [field_size_limit] characters. *)
Definition fits (f : string) : Prop :=
  Z.of_nat (String.length f) <= Csv.field_size_limit.

(** A record that the file keeps as it is: no field of its row holds a
    carriage return or is longer than the reader takes, and the text of
    each coordinate reads back as the coordinate. *)
Definition kept_by_file (record : WiGLERecord) : Prop :=
  Forall (fun f => no_cr_str f /\ fits f) (row_of_record record) /\
  Py.float_of_string (Py.repr_float (latitude record)) = Ok (latitude record) /\
  Py.float_of_string (Py.repr_float (longitude record)) = Ok (longitude record).

Fixpoint parse_chars (self : Csv.Reader) (l : list ascii) : result Csv.Reader :=
  match l with
  | [] => Ok self
  | c :: l' => self' ← Csv.parse_process_char self (Csv.Char c); parse_chars self' l'
  end.

(** The states in which the reader starts a field. *)
Definition starts (st : Csv.ParserState) : Prop :=
  st = Csv.START_RECORD \/ st = Csv.START_FIELD.

(** Where the reader stands after the text of the field [f], read from the
    start of a field: the delimiter or the end of the row then saves [f]. *)
Definition after_field (st : Csv.ParserState) (fs : list string) (f : string)
  : Csv.Reader :=
  if Csv.has_special f then
    Csv.mkReader Csv.QUOTE_IN_QUOTED_FIELD fs (rev (list_ascii_of_string f))
  else
    match f with
    | EmptyString => Csv.mkReader st fs []
    | _ => Csv.mkReader Csv.IN_FIELD fs (rev (list_ascii_of_string f))
    end.

(** A file with Windows line ends and a title line before the header. *)
Definition windows_file : string :=
  "WigleWifi-1.4,appRelease=2.26" +:+ Csv.lineterminator +:+
  "MAC,SSID,AuthMode,FirstSeen,Channel,RSSI,CurrentLatitude,CurrentLongitude,AltitudeMeters,AccuracyMeters,Type"
  +:+ Csv.lineterminator +:+
  "AA:BB:CC:DD:EE:01,HomeWifi,WPA2,2023-01-01,6,-50,40.0010,-74.0010,10,5,WIFI"
  +:+ Csv.lineterminator.

(** The lines of [windows_file]. *)
Definition windows_title : string :=
  "WigleWifi-1.4,appRelease=2.26" +:+ Py.str_of_char Py.LF.

Definition windows_header : string :=
  "MAC,SSID,AuthMode,FirstSeen,Channel,RSSI,CurrentLatitude,CurrentLongitude,AltitudeMeters,AccuracyMeters,Type"
  +:+ Py.str_of_char Py.LF.

Definition windows_data : string :=
  "AA:BB:CC:DD:EE:01,HomeWifi,WPA2,2023-01-01,6,-50,40.0010,-74.0010,10,5,WIFI"
  +:+ Py.str_of_char Py.LF.

(** The text fields of a record. *)
Definition text_fields (record : WiGLERecord) : list string :=
  [mac record; ssid record; auth_mode record; first_seen record; channel record;
   rssi record; altitude record; accuracy record; network_type record].

(** A line as [readlines] gives it: a line feed, if any, ends it, and it
    holds no other end of line. *)
Definition line_shape (line : string) : Prop :=
  exists body, Forall (fun c => Csv.is_newline c = false) body /\
    (line = string_of_list_ascii body \/ line = string_of_list_ascii (body ++ [Py.LF])).

(** The reader is not past the end of a row, and its field so far has at
    most [n] characters. *)
Definition within (self : Csv.Reader) (n : nat) : Prop :=
  Csv.state self <> Csv.EAT_CRNL /\ (length (Csv.field self) <= n)%nat.

(** The first test of the loop of [filter_records]:
    [self.filter_config and self.filter_config.should_filter(record)]. *)
Definition denied (filter_config : option FilterConfig) (record : WiGLERecord) : bool :=
  match filter_config with
  | Some c => should_filter c record
  | None => false
  end.

(** A record far from the geofence, a record inside it, and one without
    a fix, from three different devices. *)
Definition far_record : WiGLERecord :=
  mkWiGLERecord "AA:BB:CC:DD:EE:05" "Cafe" "WPA2" "2023-01-01" "6" "-50"
    41.5 (-73.25) "10" "5" "WIFI".

Definition scrub_input : list WiGLERecord :=
  [home_record; far_record; lost_record].

(** The fingerprints the detector holds for a MAC:
    [self.mac_locations[mac]] of the [defaultdict(set)]. *)
Definition fingerprints (self : CreepDetector.t) (m : string) : gset string :=
  default ∅ (CreepDetector.mac_locations self !! m).

(** A row whose latitude is the text [nan], which [float] accepts, and
    the record it parses to. *)
Definition nan_row : list string :=
  ["AA:BB:CC:DD:EE:06"; "Drift"; "WPA2"; "2023-01-01"; "6"; "-50";
   "nan"; "-74.0010"; "10"; "5"; "WIFI"].

Definition nan_record : WiGLERecord :=
  mkWiGLERecord "AA:BB:CC:DD:EE:06" "Drift" "WPA2" "2023-01-01" "6" "-50"
    nan (-74.001) "10" "5" "WIFI".

(** The creep report of [main]: the detector with the default fudge
    factor takes all the records, and the first ten devices seen at two
    places or more are listed. *)
Definition creep_report (all_records : list WiGLERecord) : result (list (Z * string)) :=
  detector ← CreepDetector.add_records
               (CreepDetector.init CreepDetector.default_fudge_factor) all_records;
  Ok (take 10 (CreepDetector.get_multi_location_devices detector 2)).

(** The loop of [main] that shows sample records of a listed device: the
    records shown, with [sample_count] shown before. *)
Fixpoint sample_records (m : string) (sample_count : Z) (all_records : list WiGLERecord)
  : list WiGLERecord :=
  match all_records with
  | [] => []
  | record :: all_records' =>
      if String.eqb (mac record) m && (sample_count <? 3)
      then record :: sample_records m (sample_count + 1) all_records'
      else sample_records m sample_count all_records'
  end.

(** The loop [for record in all_records: analyzer.add_record(record)] of
    [main], on a fresh analyzer. *)
Definition analyze (all_records : list WiGLERecord) : EncryptionAnalyzer.t :=
  foldl EncryptionAnalyzer.add_record EncryptionAnalyzer.init all_records.

(** A text without a space. *)
Definition no_space (s : string) : Prop :=
  Forall (fun c => c <> " "%char) (list_ascii_of_string s).

(** The location mode [main] derives from [--here] and [--not-here]. *)
Definition location_mode_of (here not_here : bool) : option string :=
  if here then Some "here" else if not_here then Some "not_here" else None.

(** The scrub of one file in [main]: the text written for the text read. *)
Definition scrub_file (filter_config : option FilterConfig)
    (location_filter : option LocationFilter) (here not_here : bool) (content : string)
  : result string :=
  records ← read_csv_file content;
  Ok (write_csv_file
        (filter_records filter_config location_filter
           (location_mode_of here not_here) records)).



(** * Properties *)

(** ** Record parser *)

Lemma home_row_parses : from_csv_row home_row = Ok (Some home_record).
Proof. vm_compute. reflexivity. Qed.

Lemma float_of_string_raises s e : Py.float_of_string s = Raise e -> e = ValueError.
Proof.
  unfold Py.float_of_string.
  destruct (Py.drop_underscores None (list_ascii_of_string s)); [|congruence].
  destruct (Py.split_sign (Py.strip l)) as [neg body].
  destruct (Py.inf_or_nan neg body); [congruence|].
  destruct (Py.number_part neg body); congruence.
Qed.

Lemma float_of_string_empty : Py.float_of_string "" = Raise ValueError.
Proof. reflexivity. Qed.

Lemma item_lookup row i s : row !! i = Some s -> item row i = Ok s.
Proof. unfold item. now intros ->. Qed.

Lemma item_inv row i s : item row i = Ok s -> row !! i = Some s.
Proof. unfold item. destruct (row !! i); congruence. Qed.

Lemma truthy_false s : truthy s = false <-> s = "".
Proof. destruct s; simpl; split; congruence. Qed.

Lemma coordinate_ok row i s x :
  row !! i = Some s -> coordinate_of s x -> coordinate row i = Ok x.
Proof.
  intros Hi [[-> ->]|Hx]; unfold coordinate; rewrite (item_lookup _ _ _ Hi); simpl.
  - reflexivity.
  - destruct s; simpl; [|exact Hx].
    rewrite float_of_string_empty in Hx. discriminate.
Qed.

Lemma coordinate_inv row i x :
  coordinate row i = Ok x -> exists s, row !! i = Some s /\ coordinate_of s x.
Proof.
  unfold coordinate. destruct (item row i) as [s|] eqn:Hi; simpl; [|discriminate].
  apply item_inv in Hi. intros H. exists s. split; [exact Hi|].
  destruct (truthy s) eqn:Ht.
  - now right.
  - left. apply truthy_false in Ht. split; congruence.
Qed.

Lemma coordinate_raises row i s e :
  row !! i = Some s -> s <> "" -> Py.float_of_string s = Raise e ->
  coordinate row i = Raise ValueError.
Proof.
  intros Hi Hs He. unfold coordinate. rewrite (item_lookup _ _ _ Hi). simpl.
  destruct s; [congruence|]. simpl.
  rewrite He. f_equal. eapply float_of_string_raises, He.
Qed.

Lemma coordinate_exception row i e :
  coordinate row i = Raise e -> e = ValueError \/ e = IndexError.
Proof.
  unfold coordinate, item. destruct (row !! i) as [s|]; simpl.
  - destruct (truthy s); [|discriminate].
    intros H. left. eapply float_of_string_raises, H.
  - intros [= <-]. now right.
Qed.

(** The parser never lets an exception out. *)
Lemma from_csv_row_returns row : exists o, from_csv_row row = Ok o.
Proof.
  unfold from_csv_row. destruct (length row <? 11)%nat eqn:Hlen; [eauto|].
  apply Nat.ltb_ge in Hlen.
  assert (Hitem : forall i, (i < 11)%nat -> exists s, item row i = Ok s).
  { intros i Hi. destruct (lookup_lt_is_Some_2 row i) as [s Hs]; [lia|].
    exists s. now apply item_lookup. }
  unfold build_record.
  destruct (coordinate row 6) as [lat|e] eqn:H6; simpl.
  2:{ destruct (coordinate_exception _ _ _ H6) as [-> | ->]; eauto. }
  destruct (coordinate row 7) as [lon|e] eqn:H7; simpl.
  2:{ destruct (coordinate_exception _ _ _ H7) as [-> | ->]; eauto. }
  destruct (Hitem 0%nat) as [? ->]; [lia|]; simpl.
  destruct (Hitem 1%nat) as [? ->]; [lia|]; simpl.
  destruct (Hitem 2%nat) as [? ->]; [lia|]; simpl.
  destruct (Hitem 3%nat) as [? ->]; [lia|]; simpl.
  destruct (Hitem 4%nat) as [? ->]; [lia|]; simpl.
  destruct (Hitem 5%nat) as [? ->]; [lia|]; simpl.
  destruct (Hitem 8%nat) as [? ->]; [lia|]; simpl.
  destruct (Hitem 9%nat) as [? ->]; [lia|]; simpl.
  destruct (10 <? length row)%nat; [destruct (Hitem 10%nat) as [? ->]; [lia|]|]; simpl; eauto.
Qed.

Lemma build_record_ok row f0 f1 f2 f3 f4 f5 f6 f7 f8 f9 f10 lat lon :
  row !! 0%nat = Some f0 -> row !! 1%nat = Some f1 -> row !! 2%nat = Some f2 ->
  row !! 3%nat = Some f3 -> row !! 4%nat = Some f4 -> row !! 5%nat = Some f5 ->
  row !! 6%nat = Some f6 -> row !! 7%nat = Some f7 -> row !! 8%nat = Some f8 ->
  row !! 9%nat = Some f9 -> row !! 10%nat = Some f10 ->
  coordinate_of f6 lat -> coordinate_of f7 lon ->
  build_record row = Ok (mkWiGLERecord f0 f1 f2 f3 f4 f5 lat lon f8 f9 f10).
Proof.
  intros H0 H1 H2 H3 H4 H5 H6 H7 H8 H9 H10 Hlat Hlon. unfold build_record.
  rewrite (coordinate_ok _ _ _ _ H6 Hlat), (coordinate_ok _ _ _ _ H7 Hlon). simpl.
  rewrite (item_lookup _ _ _ H0), (item_lookup _ _ _ H1), (item_lookup _ _ _ H2),
    (item_lookup _ _ _ H3), (item_lookup _ _ _ H4), (item_lookup _ _ _ H5),
    (item_lookup _ _ _ H8), (item_lookup _ _ _ H9). simpl.
  assert (Hlen : (10 <? length row)%nat = true).
  { apply Nat.ltb_lt. eapply lookup_lt_Some, H10. }
  rewrite Hlen, (item_lookup _ _ _ H10). reflexivity.
Qed.

Lemma build_record_inv row record :
  build_record row = Ok record ->
  (10 <? length row)%nat = true ->
  row !! 0%nat = Some (mac record) /\ row !! 1%nat = Some (ssid record) /\
  row !! 2%nat = Some (auth_mode record) /\ row !! 3%nat = Some (first_seen record) /\
  row !! 4%nat = Some (channel record) /\ row !! 5%nat = Some (rssi record) /\
  (exists s, row !! 6%nat = Some s /\ coordinate_of s (latitude record)) /\
  (exists s, row !! 7%nat = Some s /\ coordinate_of s (longitude record)) /\
  row !! 8%nat = Some (altitude record) /\ row !! 9%nat = Some (accuracy record) /\
  row !! 10%nat = Some (network_type record).
Proof.
  unfold build_record. intros H Hlen. rewrite Hlen in H.
  destruct (coordinate row 6) as [lat|] eqn:H6; simpl in H; [|discriminate].
  destruct (coordinate row 7) as [lon|] eqn:H7; simpl in H; [|discriminate].
  destruct (item row 0) as [r0|] eqn:H0; simpl in H; [|discriminate].
  destruct (item row 1) as [r1|] eqn:H1; simpl in H; [|discriminate].
  destruct (item row 2) as [r2|] eqn:H2; simpl in H; [|discriminate].
  destruct (item row 3) as [r3|] eqn:H3; simpl in H; [|discriminate].
  destruct (item row 4) as [r4|] eqn:H4; simpl in H; [|discriminate].
  destruct (item row 5) as [r5|] eqn:H5; simpl in H; [|discriminate].
  destruct (item row 8) as [r8|] eqn:H8; simpl in H; [|discriminate].
  destruct (item row 9) as [r9|] eqn:H9; simpl in H; [|discriminate].
  destruct (item row 10) as [r10|] eqn:H10; simpl in H; [|discriminate].
  injection H as <-. simpl.
  repeat split; try (now apply item_inv); now apply coordinate_inv.
Qed.

(** C5. Record parser contract: the parser never raises; a row of fewer
    than 11 fields gives no record; so does a row whose latitude or
    longitude field is not empty and is not the text of a float; and a row
    of at least 11 fields whose two coordinate fields are each empty (read
    as 0.0) or the text of a float gives the record whose fields are those
    of the row, taken by position. *)
Theorem from_csv_row_contract (row : list string) :
  (exists o, from_csv_row row = Ok o) /\
  ((length row < 11)%nat -> from_csv_row row = Ok None) /\
  (forall i s e, (i = 6 \/ i = 7)%nat -> row !! i = Some s -> s <> "" ->
     Py.float_of_string s = Raise e -> from_csv_row row = Ok None) /\
  (forall f0 f1 f2 f3 f4 f5 f6 f7 f8 f9 f10 lat lon,
     row !! 0%nat = Some f0 -> row !! 1%nat = Some f1 -> row !! 2%nat = Some f2 ->
     row !! 3%nat = Some f3 -> row !! 4%nat = Some f4 -> row !! 5%nat = Some f5 ->
     row !! 6%nat = Some f6 -> row !! 7%nat = Some f7 -> row !! 8%nat = Some f8 ->
     row !! 9%nat = Some f9 -> row !! 10%nat = Some f10 ->
     coordinate_of f6 lat -> coordinate_of f7 lon ->
     from_csv_row row = Ok (Some (mkWiGLERecord f0 f1 f2 f3 f4 f5 lat lon f8 f9 f10))).
Proof.
  split; [apply from_csv_row_returns|]. split; [|split].
  - intros Hlen. unfold from_csv_row. apply Nat.ltb_lt in Hlen. now rewrite Hlen.
  - intros i s e Hi Hs Hne He. unfold from_csv_row.
    destruct (length row <? 11)%nat; [reflexivity|].
    unfold build_record.
    destruct Hi as [-> | ->].
    + now rewrite (coordinate_raises _ _ _ _ Hs Hne He).
    + destruct (coordinate row 6) as [lat|e6] eqn:H6; simpl.
      * now rewrite (coordinate_raises _ _ _ _ Hs Hne He).
      * now destruct (coordinate_exception _ _ _ H6) as [-> | ->].
  - intros f0 f1 f2 f3 f4 f5 f6 f7 f8 f9 f10 lat lon
      H0 H1 H2 H3 H4 H5 H6 H7 H8 H9 H10 Hlat Hlon.
    unfold from_csv_row.
    assert (Hlen : (length row <? 11)%nat = false).
    { apply Nat.ltb_ge. apply lookup_lt_Some in H10. lia. }
    rewrite Hlen.
    now rewrite (build_record_ok _ _ _ _ _ _ _ _ _ _ _ _ _ _
                   H0 H1 H2 H3 H4 H5 H6 H7 H8 H9 H10 Hlat Hlon).
Qed.

Lemma from_csv_row_contract_witness :
  from_csv_row ["AA:BB:CC:DD:EE:01"; "HomeWifi"] = Ok None /\
  from_csv_row garbled_row = Ok None /\
  from_csv_row blank_row = Ok (Some lost_record) /\
  from_csv_row home_row = Ok (Some home_record).
Proof.
  split; [|split; [|split]].
  - apply (proj1 (proj2 (from_csv_row_contract _))). simpl. lia.
  - apply (proj1 (proj2 (proj2 (from_csv_row_contract garbled_row)))
             6%nat "north" ValueError); [now left|reflexivity|discriminate|reflexivity].
  - eapply (proj2 (proj2 (proj2 (from_csv_row_contract blank_row))));
      try reflexivity; left; split; reflexivity.
  - eapply (proj2 (proj2 (proj2 (from_csv_row_contract home_row))));
      try reflexivity; right; vm_compute; reflexivity.
Defined.

Lemma from_csv_row_inv row record :
  from_csv_row row = Ok (Some record) ->
  (11 <= length row)%nat /\ build_record row = Ok record.
Proof.
  unfold from_csv_row. intros H.
  destruct (length row <? 11)%nat eqn:Hlen; [discriminate|].
  apply Nat.ltb_ge in Hlen. split; [exact Hlen|].
  destruct (build_record row) as [r|e]; [now injection H as ->|].
  destruct e; discriminate.
Qed.

(** C10. A row the parser accepts has at least 11 fields, and the record's
    network type is the row's 11th field as it stands: the guard
    [len(row) > 10] on the ["WIFI"] default always holds there, so no
    parsed record gets the default. *)
Theorem parsed_network_type_verbatim (row : list string) (record : WiGLERecord) :
  from_csv_row row = Ok (Some record) ->
  (11 <= length row)%nat /\
  (10 <? length row)%nat = true /\
  row !! 10%nat = Some (network_type record).
Proof.
  intros H. apply from_csv_row_inv in H as [Hlen Hb].
  assert (Hgt : (10 <? length row)%nat = true) by (apply Nat.ltb_lt; lia).
  repeat split; [exact Hlen|exact Hgt|].
  now apply (build_record_inv _ _ Hb Hgt).
Qed.

Lemma parsed_network_type_verbatim_witness :
  (11 <= length home_row)%nat /\
  (10 <? length home_row)%nat = true /\
  home_row !! 10%nat = Some (network_type home_record).
Proof. apply (parsed_network_type_verbatim home_row home_record home_row_parses). Defined.

(** ** Geofence filter *)

(** The specification's example: the home record is inside the box around
    (40.001, -74.001) of half-width 0.001. *)
Lemma home_record_is_here : is_here home_filter home_record = true.
Proof. vm_compute. reflexivity. Qed.

(** C3. Geofence sentinel policy: a record at the (0,0) sentinel is
    neither here nor not here, and for any other record [is_not_here] is
    the negation of [is_here]. *)
Theorem geofence_sentinel_policy (self : LocationFilter) (record : WiGLERecord) :
  ((latitude record =? 0)%float = true -> (longitude record =? 0)%float = true ->
   is_here self record = false /\ is_not_here self record = false) /\
  (((latitude record =? 0)%float = false \/ (longitude record =? 0)%float = false) ->
   is_not_here self record = negb (is_here self record)).
Proof.
  unfold is_not_here, is_here, no_fix. split.
  - intros -> ->. split; reflexivity.
  - intros [-> | ->]; [reflexivity|].
    now rewrite andb_false_r.
Qed.

Lemma geofence_sentinel_policy_witness :
  (is_here home_filter lost_record = false /\
   is_not_here home_filter lost_record = false) /\
  is_not_here home_filter home_record = negb (is_here home_filter home_record).
Proof.
  split.
  - apply (proj1 (geofence_sentinel_policy home_filter lost_record)); reflexivity.
  - apply (proj2 (geofence_sentinel_policy home_filter home_record)).
    left. vm_compute. reflexivity.
Defined.

(** ** Deny-list filter *)

Lemma any_pattern_true patterns record :
  any_pattern patterns record = true <->
  exists p, p ∈ patterns /\ (search p (ssid record) || search p (mac record)) = true.
Proof.
  induction patterns as [|p ps IH]; simpl.
  - split; [discriminate|]. intros (p & Hp & _). now apply elem_of_nil in Hp.
  - destruct (search p (ssid record) || search p (mac record)) eqn:Hp.
    + split; [|reflexivity]. intros _. exists p. split; [left|exact Hp].
    + rewrite IH. split.
      * intros (p' & Hin & Hm). exists p'. split; [now right|exact Hm].
      * intros (p' & Hin & Hm). apply elem_of_cons in Hin as [-> | Hin].
        -- congruence.
        -- exists p'. now split.
Qed.

(** What [should_filter] decides, rule set by rule set. *)
Lemma should_filter_true self record :
  should_filter self record = true <->
  Py.upper (mac record) ∈ blocked_macs self \/
  ssid record ∈ blocked_ssids self \/
  exists p, p ∈ blocked_patterns self /\
    (search p (ssid record) || search p (mac record)) = true.
Proof.
  unfold should_filter. rewrite <- any_pattern_true.
  destruct (decide (Py.upper (mac record) ∈ blocked_macs self)); [tauto|].
  destruct (decide (ssid record ∈ blocked_ssids self)); [tauto|].
  split; [tauto|]. intros [?|[?|?]]; tauto.
Qed.

(** A configuration with rule sets that hold those of another one filters
    every record the other one filters. *)
Lemma should_filter_subset self self' record :
  blocked_macs self ⊆ blocked_macs self' ->
  blocked_ssids self ⊆ blocked_ssids self' ->
  (forall p, p ∈ blocked_patterns self -> p ∈ blocked_patterns self') ->
  should_filter self record = true -> should_filter self' record = true.
Proof.
  intros Hm Hs Hp. rewrite !should_filter_true.
  intros [H|[H|(p & Hin & H)]]; [left|right; left|right; right]; auto.
  exists p. auto.
Qed.

(** C7. Deny-list monotonicity: a record that is filtered stays filtered
    when an entry is added to the blocked MACs, to the blocked SSIDs, or
    anywhere in the sequence of patterns. *)
Theorem should_filter_monotone (self : FilterConfig) (record : WiGLERecord) :
  should_filter self record = true ->
  (forall m, should_filter
     (mkFilterConfig ({[m]} ∪ blocked_macs self) (blocked_ssids self)
        (blocked_patterns self)) record = true) /\
  (forall s, should_filter
     (mkFilterConfig (blocked_macs self) ({[s]} ∪ blocked_ssids self)
        (blocked_patterns self)) record = true) /\
  (forall p before after, blocked_patterns self = (before ++ after)%list ->
     should_filter
       (mkFilterConfig (blocked_macs self) (blocked_ssids self)
          (before ++ p :: after)%list) record = true).
Proof.
  intros H. repeat split; intros;
    (eapply should_filter_subset; [| | |exact H]); simpl; try set_solver.
  intros q. rewrite H0, !elem_of_app, elem_of_cons. tauto.
Qed.

Lemma home_config_filters : should_filter home_config home_record = true.
Proof. vm_compute. reflexivity. Qed.

Lemma should_filter_monotone_witness :
  should_filter
    (mkFilterConfig ({["FF:FF:FF:FF:FF:FF"]} ∪ blocked_macs home_config)
       (blocked_ssids home_config) (blocked_patterns home_config)) home_record = true /\
  should_filter
    (mkFilterConfig (blocked_macs home_config) ({["myssid"]} ∪ blocked_ssids home_config)
       (blocked_patterns home_config)) home_record = true /\
  should_filter
    (mkFilterConfig (blocked_macs home_config) (blocked_ssids home_config)
       [wifi_pattern]) home_record = true.
Proof.
  destruct (should_filter_monotone home_config home_record home_config_filters)
    as (Hm & Hs & Hp).
  split; [apply Hm|split; [apply Hs|]].
  apply (Hp wifi_pattern [] []). reflexivity.
Defined.

(** Upper-casing twice is upper-casing once. *)
Lemma to_upper_idem c : Py.to_upper (Py.to_upper c) = Py.to_upper c.
Proof.
  destruct c as [[] [] [] [] [] [] [] []]; vm_compute; reflexivity.
Qed.

Lemma upper_idem s : Py.upper (Py.upper s) = Py.upper s.
Proof. induction s as [|c s IH]; simpl; [reflexivity|]. now rewrite to_upper_idem, IH. Qed.

(** The blocked MACs are kept as the configuration spells them, so an
    entry that is not in upper case is never the upper-cased MAC of a
    record. *)
Lemma lower_case_entry_never_matches (entry : string) (record : WiGLERecord) :
  Py.upper entry <> entry -> Py.upper (mac record) <> entry.
Proof. intros Hne Heq. apply Hne. rewrite <- Heq. apply upper_idem. Qed.

(** C2. The deny list upper-cases the MAC of the record only: with the
    blocked MAC ["aa:bb:cc:dd:ee:ff"] (an entry of the sample
    configuration) loaded, the record with that very MAC is not filtered,
    although the two are equal once both are upper-cased. *)
Theorem lower_case_blocked_mac_not_filtered (re_compile : string -> option Pattern) :
  Py.upper (mac lower_case_record) = Py.upper "aa:bb:cc:dd:ee:ff" /\
  "aa:bb:cc:dd:ee:ff" ∈ doc_blocked_macs lower_case_config /\
  "aa:bb:cc:dd:ee:ff" ∈ doc_blocked_macs sample_config /\
  should_filter (load_config re_compile FilterConfig_init lower_case_config)
    lower_case_record = false.
Proof.
  split; [reflexivity|]. split; [apply list_elem_of_here|].
  split; [apply list_elem_of_further, list_elem_of_here|].
  vm_compute. reflexivity.
Qed.

(** ** Creep detector: the ranking *)

Lemma ascii_compare_refl c : Ascii.compare c c = Eq.
Proof. apply N.compare_refl. Qed.

Lemma string_compare_refl s : String.compare s s = Eq.
Proof. induction s as [|c s IH]; simpl; [reflexivity|]. now rewrite ascii_compare_refl. Qed.

Lemma string_compare_lt_trans a b c :
  String.compare a b = Lt -> String.compare b c = Lt -> String.compare a c = Lt.
Proof.
  revert b c. induction a as [|x a IH]; intros [|y b] [|z c]; simpl;
    try discriminate; try reflexivity.
  destruct (Ascii.compare x y) eqn:Hxy; try discriminate;
    destruct (Ascii.compare y z) eqn:Hyz; try discriminate; intros Hab Hbc.
  - apply Ascii.compare_eq_iff in Hxy, Hyz. subst.
    rewrite ascii_compare_refl. eauto.
  - apply Ascii.compare_eq_iff in Hxy. subst. now rewrite Hyz.
  - apply Ascii.compare_eq_iff in Hyz. subst. now rewrite Hxy.
  - unfold Ascii.compare in *. rewrite N.compare_lt_iff in Hxy, Hyz.
    assert (H : (N_of_ascii x ?= N_of_ascii z)%N = Lt) by (apply N.compare_lt_iff; lia).
    now rewrite H.
Qed.

Lemma string_leb_refl s : String.leb s s = true.
Proof. unfold String.leb. now rewrite string_compare_refl. Qed.

Lemma string_leb_trans a b c :
  String.leb a b = true -> String.leb b c = true -> String.leb a c = true.
Proof.
  unfold String.leb.
  destruct (String.compare a b) eqn:Hab; try discriminate; intros _;
    destruct (String.compare b c) eqn:Hbc; try discriminate; intros _.
  - apply String.compare_eq_iff in Hab, Hbc. subst. now rewrite string_compare_refl.
  - apply String.compare_eq_iff in Hab. subst. now rewrite Hbc.
  - apply String.compare_eq_iff in Hbc. subst. now rewrite Hab.
  - now rewrite (string_compare_lt_trans _ _ _ Hab Hbc).
Qed.

Lemma tuple_leb_spec x y :
  CreepDetector.tuple_leb x y = true <->
  x.1 < y.1 \/ (x.1 = y.1 /\ String.leb x.2 y.2 = true).
Proof.
  unfold CreepDetector.tuple_leb.
  rewrite orb_true_iff, andb_true_iff, Z.ltb_lt, Z.eqb_eq. tauto.
Qed.

#[global] Instance descending_total : Total CreepDetector.descending.
Proof.
  intros x y. unfold CreepDetector.descending. rewrite !tuple_leb_spec.
  destruct (Z.lt_trichotomy x.1 y.1) as [?|[?|?]]; [tauto| |tauto].
  destruct (String.leb_total x.2 y.2); [right|left]; right; split; auto.
Qed.

#[global] Instance descending_trans : Transitive CreepDetector.descending.
Proof.
  intros x y z. unfold CreepDetector.descending. rewrite !tuple_leb_spec.
  intros [?|[? Hyx]] [?|[? Hzy]]; try (left; lia).
  right. split; [lia|]. eapply string_leb_trans; eauto.
Qed.

#[global] Instance descending_antisym : AntiSymm (=) CreepDetector.descending.
Proof.
  intros [c1 m1] [c2 m2]. unfold CreepDetector.descending. rewrite !tuple_leb_spec.
  simpl. intros [?|[? H1]] [?|[? H2]]; try lia.
  f_equal; [lia|]. now apply String.leb_antisym.
Qed.

Lemma elem_of_collect items min_locations c m :
  (c, m) ∈ CreepDetector.collect items min_locations <->
  exists locations, (m, locations) ∈ items /\
    c = Z.of_nat (size locations) /\ min_locations <= c.
Proof.
  induction items as [|[m' locs] items IH]; simpl.
  - split; [intros H; now apply elem_of_nil in H|].
    intros (? & H & _). now apply elem_of_nil in H.
  - destruct (Z.of_nat (size locs) >=? min_locations) eqn:Hge.
    + rewrite elem_of_cons, IH. apply Z.geb_le in Hge. split.
      * intros [[= -> ->]|(l & Hin & Hc & Hmin)].
        -- exists locs. split; [left|]. split; [reflexivity|lia].
        -- exists l. split; [now right|]. now split.
      * intros (l & Hin & Hc & Hmin). apply elem_of_cons in Hin as [[= -> ->]|Hin].
        -- left. now f_equal.
        -- right. exists l. now split.
    + rewrite IH. split.
      * intros (l & Hin & Hc & Hmin). exists l. split; [now right|]. now split.
      * intros (l & Hin & Hc & Hmin). apply elem_of_cons in Hin as [[= -> ->]|Hin].
        -- rewrite Z.geb_leb in Hge. apply Z.leb_gt in Hge. lia.
        -- exists l. now split.
Qed.

Lemma NoDup_collect items min_locations :
  NoDup items.*1 -> NoDup (CreepDetector.collect items min_locations).
Proof.
  induction items as [|[m locs] items IH]; simpl; [constructor|].
  intros Hnd. apply NoDup_cons in Hnd as [Hm Hnd].
  destruct (Z.of_nat (size locs) >=? min_locations); [|auto].
  apply NoDup_cons. split; [|auto].
  rewrite elem_of_collect. intros (l & Hin & _). apply Hm.
  apply list_elem_of_fmap. now exists (m, l).
Qed.

Lemma StronglySorted_weaken {A} (R R' : relation A) (l : list A) :
  (forall x y, R x y -> R' x y) -> StronglySorted R l -> StronglySorted R' l.
Proof.
  intros HR. induction 1 as [|x l Hl IH Hx]; constructor; [exact IH|].
  eapply Forall_impl; [exact Hx|]. auto.
Qed.

(** C4. Creep ranking: the result holds exactly the pairs (size of the
    fingerprint set, MAC) of the MACs with at least [min_locations]
    fingerprints, each once, and it is sorted downward by the tuple:
    counts do not increase, and MACs do not increase among equal counts. *)
Theorem creep_ranking (self : CreepDetector.t) (min_locations : Z) :
  (forall c m,
     (c, m) ∈ CreepDetector.get_multi_location_devices self min_locations <->
     exists locations, CreepDetector.mac_locations self !! m = Some locations /\
       c = Z.of_nat (size locations) /\ min_locations <= c) /\
  NoDup (CreepDetector.get_multi_location_devices self min_locations) /\
  StronglySorted ranks_before
    (CreepDetector.get_multi_location_devices self min_locations).
Proof.
  unfold CreepDetector.get_multi_location_devices, CreepDetector.sorted_reverse.
  split; [|split].
  - intros c m. rewrite merge_sort_Permutation, elem_of_collect.
    split; intros (l & H & ?); exists l; (split; [|assumption]).
    + now apply elem_of_map_to_list in H.
    + now apply elem_of_map_to_list.
  - rewrite merge_sort_Permutation. apply NoDup_collect, NoDup_fst_map_to_list.
  - apply (StronglySorted_weaken CreepDetector.descending).
    + intros x y. unfold CreepDetector.descending. now rewrite tuple_leb_spec.
    + apply StronglySorted_merge_sort; apply _.
Qed.

(** The ranking is the only downward arrangement of the collected pairs,
    so it does not depend on the order in which the dictionary is walked. *)
Lemma creep_ranking_unique (self : CreepDetector.t) (min_locations : Z) l :
  l ≡ₚ CreepDetector.collect (map_to_list (CreepDetector.mac_locations self)) min_locations ->
  Sorted CreepDetector.descending l ->
  l = CreepDetector.get_multi_location_devices self min_locations.
Proof.
  intros Hp Hs. apply (Sorted_unique CreepDetector.descending); [exact Hs| |].
  - apply Sorted_merge_sort. apply _.
  - unfold CreepDetector.get_multi_location_devices, CreepDetector.sorted_reverse.
    now rewrite merge_sort_Permutation.
Qed.

(** ** Binary64 rounding: when it cannot overflow *)

Lemma digits2_pos_size p : digits2_pos p = Pos.size p.
Proof. induction p; simpl; congruence. Qed.

Lemma Zdigits2_log2 m : 0 < m -> Zdigits2 m = Z.log2 m + 1.
Proof.
  destruct m as [|p|p]; try lia. intros _. simpl.
  rewrite digits2_pos_size. destruct p; simpl; lia.
Qed.

Lemma Zdigits2_nonneg m : 0 <= Zdigits2 m.
Proof. destruct m; simpl; lia. Qed.

Lemma Zdigits2_le m k : 0 <= m -> 0 <= k -> (Zdigits2 m <= k <-> m < 2 ^ k).
Proof.
  intros Hm Hk. destruct (Z.eq_dec m 0) as [->|Hne].
  - simpl. split; [intros _; apply Z.pow_pos_nonneg; lia|lia].
  - rewrite Zdigits2_log2 by lia. rewrite (Z.log2_lt_pow2 m k) by lia. lia.
Qed.

Lemma shr_1_digits r :
  0 <= shr_m r ->
  0 <= shr_m (shr_1 r) /\ Zdigits2 (shr_m (shr_1 r)) = Z.max 0 (Zdigits2 (shr_m r) - 1).
Proof.
  destruct r as [m r s]. simpl. intros Hm.
  destruct m as [|[p|p|]|p]; simpl; try lia.
Qed.

Lemma iter_shr_1_digits p : forall r,
  0 <= shr_m r ->
  0 <= shr_m (SpecFloat.iter_pos shr_1 p r) /\
  Zdigits2 (shr_m (SpecFloat.iter_pos shr_1 p r)) = Z.max 0 (Zdigits2 (shr_m r) - Z.pos p).
Proof.
  induction p as [p IH|p IH|]; intros r Hr; simpl.
  - destruct (shr_1_digits r Hr) as [H1 E1].
    destruct (IH _ H1) as [H2 E2]. destruct (IH _ H2) as [H3 E3].
    split; [exact H3|]. rewrite E3, E2, E1. pose proof (Zdigits2_nonneg (shr_m r)). lia.
  - destruct (IH _ Hr) as [H2 E2]. destruct (IH _ H2) as [H3 E3].
    split; [exact H3|]. rewrite E3, E2. pose proof (Zdigits2_nonneg (shr_m r)). lia.
  - apply shr_1_digits, Hr.
Qed.

Lemma shr_m_record_of_loc m l : shr_m (shr_record_of_loc m l) = m.
Proof. destruct l as [|[]]; reflexivity. Qed.

Lemma shr_fexp_bounds m e l mrs e' :
  0 <= m -> shr_fexp prec emax m e l = (mrs, e') ->
  0 <= shr_m mrs /\
  e' = Z.max e (fexp prec emax (Zdigits2 m + e)) /\
  Zdigits2 (shr_m mrs) + e' <= Z.max (Zdigits2 m + e) e'.
Proof.
  intros Hm. unfold shr_fexp, shr.
  pose proof (Zdigits2_nonneg m) as Hd.
  destruct (fexp prec emax (Zdigits2 m + e) - e) as [|p|p] eqn:Hn; intros [= <- <-];
    rewrite ?shr_m_record_of_loc; try (split; [lia|split; lia]).
  destruct (iter_shr_1_digits p (shr_record_of_loc m l)) as [H1 E1].
  { now rewrite shr_m_record_of_loc. }
  rewrite shr_m_record_of_loc in E1.
  split; [exact H1|]. rewrite E1. split; lia.
Qed.

Lemma round_nearest_even_bounds m l :
  0 <= m -> m <= round_nearest_even m l <= m + 1.
Proof.
  intros Hm. unfold round_nearest_even.
  destruct l as [|[]]; try lia. destruct (Z.even m); lia.
Qed.

Lemma Zdigits2_succ m m' : 0 <= m -> m <= m' <= m + 1 -> Zdigits2 m' <= Zdigits2 m + 1.
Proof.
  intros Hm Hm'. pose proof (Zdigits2_nonneg m) as Hd.
  apply Zdigits2_le; [lia|lia|].
  assert (H : m < 2 ^ Zdigits2 m) by (apply Zdigits2_le; lia).
  rewrite Z.pow_add_r by lia. lia.
Qed.

(** Rounding a magnitude below [2 ^ 1023] never overflows. *)
Lemma binary_round_aux_finite s m e l :
  0 <= m -> e <= 971 -> Zdigits2 m + e <= 1023 ->
  match binary_round_aux prec emax s m e l with
  | S754_zero _ | S754_finite _ _ _ => True
  | _ => False
  end.
Proof.
  intros Hm He Hd. unfold binary_round_aux.
  destruct (shr_fexp prec emax m e l) as [mrs e1] eqn:H1.
  destruct (shr_fexp_bounds _ _ _ _ _ Hm H1) as (Hm1 & He1 & Hd1).
  pose proof (round_nearest_even_bounds (shr_m mrs) (loc_of_shr_record mrs) Hm1) as Hr.
  set (mr := round_nearest_even (shr_m mrs) (loc_of_shr_record mrs)) in *.
  destruct (shr_fexp prec emax mr e1 loc_Exact) as [mrs2 e2] eqn:H2.
  assert (Hmr : 0 <= mr) by lia.
  destruct (shr_fexp_bounds _ _ _ _ _ Hmr H2) as (Hm2 & He2 & Hd2).
  pose proof (Zdigits2_succ _ _ Hm1 Hr) as Hs.
  unfold fexp, SpecFloat.emin, prec, emax in *.
  destruct (shr_m mrs2) as [|p|p]; [exact I| |lia].
  assert (Hle : (e2 <=? 1024 - 53) = true) by (apply Z.leb_le; lia).
  now rewrite Hle.
Qed.

Lemma round_ratio_finite s n d :
  0 < n -> 0 < d -> n < d * 2 ^ 1023 ->
  match Py.round_ratio s n d with
  | S754_zero _ | S754_finite _ _ _ => True
  | _ => False
  end.
Proof.
  intros Hn Hd Hlt. unfold Py.round_ratio.
  set (k := Z.max 0 (Z.log2 d - Z.log2 n + 64)).
  assert (Hk : 0 <= k) by lia.
  assert (H2k : 0 < 2 ^ k) by (apply Z.pow_pos_nonneg; lia).
  assert (Hq : 0 <= n * 2 ^ k / d) by (apply Z.div_pos; nia).
  apply binary_round_aux_finite; [exact Hq|lia|].
  assert (Hb : n * 2 ^ k / d < 2 ^ (1023 + k)).
  { apply Z.div_lt_upper_bound; [lia|]. rewrite Z.pow_add_r by lia. nia. }
  apply (Zdigits2_le _ (1023 + k)) in Hb; lia.
Qed.

(** The quotient of two ints is a float as soon as it is below [2 ^ 1023]. *)
Lemma int_truediv_returns a b :
  b <> 0 -> Z.abs a < Z.abs b * 2 ^ 1023 -> exists x, Py.int_truediv a b = Ok x.
Proof.
  intros Hb Hlt. unfold Py.int_truediv.
  destruct (b =? 0) eqn:Eb; [apply Z.eqb_eq in Eb; contradiction|].
  destruct (a =? 0) eqn:Ea; [eauto|]. apply Z.eqb_neq in Ea.
  pose proof (round_ratio_finite (xorb (a <? 0) (b <? 0)) (Z.abs a) (Z.abs b)) as H.
  destruct (Py.round_ratio (xorb (a <? 0) (b <? 0)) (Z.abs a) (Z.abs b)); eauto.
  exfalso. apply H; lia.
Qed.

Lemma int_of_float_finite x :
  Py.is_finite x = true -> exists z, Py.int_of_float x = Ok z.
Proof.
  unfold Py.is_finite, Py.int_of_float.
  destruct (Prim2SF x); try discriminate; eauto.
Qed.

(** An int cut from a float is below [2 ^ 1024]. *)
Lemma int_of_float_bound x z : Py.int_of_float x = Ok z -> Z.abs z < 2 ^ 1024.
Proof.
  unfold Py.int_of_float. pose proof (Prim2SF_valid x) as Hv.
  destruct (Prim2SF x) as [s|s| |s m e]; try discriminate.
  - intros [= <-]. simpl. apply Z.pow_pos_nonneg; lia.
  - intros [= <-]. simpl in Hv. unfold bounded, canonical_mantissa in Hv.
    apply andb_true_iff in Hv as [Hc He].
    apply Z.eqb_eq in Hc. apply Z.leb_le in He.
    unfold fexp, SpecFloat.emin, prec, emax in *.
    assert (Hm : Z.pos m < 2 ^ 53).
    { apply (Zdigits2_le (Z.pos m) 53); [lia|lia|]. simpl. lia. }
    assert (Ha : 0 <= (if 0 <=? e then Z.pos m * 2 ^ e else Z.pos m / 2 ^ (- e)) < 2 ^ 1024).
    { destruct (0 <=? e) eqn:E.
      - apply Z.leb_le in E.
        assert (H1 : 0 < 2 ^ e) by (apply Z.pow_pos_nonneg; lia).
        assert (H2 : 2 ^ e <= 2 ^ 971) by (apply Z.pow_le_mono_r; lia).
        change (2 ^ 1024) with (2 ^ 53 * 2 ^ 971). nia.
      - apply Z.leb_gt in E.
        assert (H1 : 0 < 2 ^ (- e)) by (apply Z.pow_pos_nonneg; lia).
        split; [apply Z.div_pos; lia|].
        apply Z.div_lt_upper_bound; [lia|].
        change (2 ^ 1024) with (2 ^ 53 * 2 ^ 971). nia. }
    destruct s; lia.
Qed.

(** ** Rounding toward zero *)

(** [int(x)] is the floor of [x] when [x] is not negative and minus the
    floor of [-x] when it is. *)
Lemma int_of_float_trunc x : Py.int_of_float x = Py.trunc_of_float x.
Proof.
  unfold Py.trunc_of_float, Py.int_of_float, Py.floor_of_float.
  rewrite ltb_spec, opp_spec.
  change (Prim2SF 0) with (S754_zero false).
  destruct (Prim2SF x) as [s|[]| |[] m e]; reflexivity.
Qed.

(** Where the float is not negative, [int] and [floor] agree. *)
Lemma int_of_float_floor x :
  (x <? 0)%float = false -> Py.int_of_float x = Py.floor_of_float x.
Proof. intros H. rewrite int_of_float_trunc. unfold Py.trunc_of_float. now rewrite H. Qed.

(** ** Creep detector: fingerprints *)

Lemma west_record_has_fix : no_fix west_record = false.
Proof. vm_compute. reflexivity. Qed.

Lemma west_record_location :
  CreepDetector.location fresh_detector west_record = Ok "40.00 -74.00".
Proof. vm_compute. reflexivity. Qed.

Lemma add_location_lookup self m loc :
  CreepDetector.mac_locations (CreepDetector.add_location self m loc) !! m =
  Some ({[loc]} ∪ default ∅ (CreepDetector.mac_locations self !! m)).
Proof. unfold CreepDetector.add_location. simpl. apply lookup_insert_eq. Qed.

Lemma add_location_lookup_ne self m m' loc :
  m <> m' ->
  CreepDetector.mac_locations (CreepDetector.add_location self m loc) !! m' =
  CreepDetector.mac_locations self !! m'.
Proof. intros H. unfold CreepDetector.add_location. simpl. now apply lookup_insert_ne. Qed.

(** The detector computes the fingerprint the specification describes,
    with [int] where the specification says [floor]. *)
Lemma location_spec_trunc self record :
  CreepDetector.location self record =
  spec_location Py.trunc_of_float (CreepDetector.fudge_factor self) record.
Proof.
  unfold CreepDetector.location, CreepDetector.rounded_lat, CreepDetector.rounded_lon,
    spec_location.
  destruct (Py.float_of_int (CreepDetector.fudge_factor self)) as [F|]; simpl; [|reflexivity].
  rewrite <- !int_of_float_trunc.
  destruct (Py.int_of_float (latitude record * F + 0.5)) as [i|]; simpl; [|reflexivity].
  destruct (Py.int_truediv i (CreepDetector.fudge_factor self)); simpl; [|reflexivity].
  destruct (Py.int_of_float (longitude record * F - 0.5)); reflexivity.
Qed.

(** The fingerprint is computed, no exception raised, when the factor is
    at least 2 and the two scaled coordinates are finite. *)
Lemma location_returns self record F :
  2 <= CreepDetector.fudge_factor self ->
  Py.float_of_int (CreepDetector.fudge_factor self) = Ok F ->
  Py.is_finite (latitude record * F + 0.5) = true ->
  Py.is_finite (longitude record * F - 0.5) = true ->
  exists loc, CreepDetector.location self record = Ok loc.
Proof.
  intros H2 HF Hlat Hlon.
  unfold CreepDetector.location, CreepDetector.rounded_lat, CreepDetector.rounded_lon.
  rewrite HF. simpl.
  destruct (int_of_float_finite _ Hlat) as [i Hi].
  destruct (int_of_float_finite _ Hlon) as [j Hj].
  rewrite Hi, Hj. simpl.
  pose proof (int_of_float_bound _ _ Hi) as Bi.
  pose proof (int_of_float_bound _ _ Hj) as Bj.
  change (2 ^ 1024) with (2 * 2 ^ 1023) in Bi, Bj.
  assert (H0 : 0 < 2 ^ 1023) by (apply Z.pow_pos_nonneg; lia).
  destruct (int_truediv_returns i (CreepDetector.fudge_factor self)) as [lat ->]; [lia|nia|].
  destruct (int_truediv_returns j (CreepDetector.fudge_factor self)) as [lon ->]; [lia|nia|].
  simpl. eauto.
Qed.

(** C1 (as the code has it). For a record off the (0,0) sentinel,
    [add_record] computes [int(lat*F + 0.5)/F] and [int(lon*F - 0.5)/F],
    where [int] rounds toward zero (the floor of a value that is not
    negative, minus the floor of the opposite otherwise, so it is [floor]
    where the scaled value is not negative), formats each to two decimals,
    joins them with a space and inserts the text into the set of the MAC,
    leaving the other MACs as they were; and it does so without raising
    whenever the factor is at least 2 and the two scaled coordinates are
    finite. *)
Theorem add_record_fingerprint (self : CreepDetector.t) (record : WiGLERecord) :
  no_fix record = false ->
  CreepDetector.add_record self record =
    (loc ← spec_location Py.trunc_of_float (CreepDetector.fudge_factor self) record;
     Ok (CreepDetector.add_location self (mac record) loc)) /\
  (forall x, (x <? 0)%float = false -> Py.trunc_of_float x = Py.floor_of_float x) /\
  (forall loc,
     CreepDetector.mac_locations (CreepDetector.add_location self (mac record) loc)
       !! mac record =
     Some ({[loc]} ∪ default ∅ (CreepDetector.mac_locations self !! mac record)) /\
     forall m, mac record <> m ->
       CreepDetector.mac_locations (CreepDetector.add_location self (mac record) loc) !! m =
       CreepDetector.mac_locations self !! m) /\
  (forall F,
     2 <= CreepDetector.fudge_factor self ->
     Py.float_of_int (CreepDetector.fudge_factor self) = Ok F ->
     Py.is_finite (latitude record * F + 0.5) = true ->
     Py.is_finite (longitude record * F - 0.5) = true ->
     exists loc,
       CreepDetector.add_record self record =
       Ok (CreepDetector.add_location self (mac record) loc)).
Proof.
  intros Hfix. split; [|split; [|split]].
  - unfold CreepDetector.add_record. rewrite Hfix. now rewrite location_spec_trunc.
  - intros x Hx. unfold Py.trunc_of_float. now rewrite Hx.
  - intros loc. split; [apply add_location_lookup|].
    intros m Hm. now apply add_location_lookup_ne.
  - intros F H2 HF Hlat Hlon.
    destruct (location_returns self record F H2 HF Hlat Hlon) as [loc Hloc].
    exists loc. unfold CreepDetector.add_record. now rewrite Hfix, Hloc.
Qed.

Lemma add_record_fingerprint_witness :
  CreepDetector.add_record fresh_detector west_record =
  Ok (CreepDetector.add_location fresh_detector (mac west_record) "40.00 -74.00").
Proof.
  rewrite (proj1 (add_record_fingerprint fresh_detector west_record west_record_has_fix)).
  rewrite <- location_spec_trunc, west_record_location. reflexivity.
Defined.

(** C1 (as stated) fails west of Greenwich: at (40, -74) the detector
    files the fingerprint ["40.00 -74.00"], since [int(-7400.5)] is
    [-7400], while the formula with [floor] gives ["40.00 -74.01"]. *)
Lemma floor_fingerprint_differs :
  no_fix west_record = false /\
  spec_location Py.floor_of_float CreepDetector.default_fudge_factor west_record
    = Ok "40.00 -74.01" /\
  CreepDetector.add_record fresh_detector west_record =
    Ok (CreepDetector.add_location fresh_detector (mac west_record) "40.00 -74.00") /\
  CreepDetector.mac_locations
    (CreepDetector.add_location fresh_detector (mac west_record) "40.00 -74.00")
    !! mac west_record = Some {["40.00 -74.00"]} /\
  "40.00 -74.01" ∉ ({["40.00 -74.00"]} : gset string).
Proof.
  split; [exact west_record_has_fix|].
  split; [vm_compute; reflexivity|].
  split.
  - unfold CreepDetector.add_record.
    now rewrite west_record_has_fix, west_record_location.
  - split.
    + rewrite add_location_lookup. f_equal.
    + intros H. apply elem_of_singleton in H. discriminate.
Qed.

Lemma two_sightings_reported :
  (self ← CreepDetector.add_record fresh_detector west_record;
   self' ← CreepDetector.add_record self west_record_later;
   Ok (CreepDetector.get_multi_location_devices self' 2))
  = Ok [(2, "AA:BB:CC:DD:EE:02")].
Proof. vm_compute. reflexivity. Qed.

(** ** Creep detector: duplicates *)

Lemma add_location_idem self m loc :
  CreepDetector.add_location (CreepDetector.add_location self m loc) m loc =
  CreepDetector.add_location self m loc.
Proof.
  unfold CreepDetector.add_location. simpl. f_equal.
  rewrite lookup_insert_eq. simpl. rewrite insert_insert_eq. f_equal.
  now rewrite (assoc_L (∪)), (idemp_L (∪)).
Qed.

Lemma location_add_location self m loc record :
  CreepDetector.location (CreepDetector.add_location self m loc) record =
  CreepDetector.location self record.
Proof. reflexivity. Qed.

(** Feeding a record again to the detector that holds it changes nothing. *)
Lemma add_record_again self self' record :
  CreepDetector.add_record self record = Ok self' ->
  CreepDetector.add_record self' record = Ok self'.
Proof.
  unfold CreepDetector.add_record. destruct (no_fix record); [now intros [= <-]|].
  destruct (CreepDetector.location self record) as [loc|] eqn:Hloc; simpl; [|discriminate].
  intros [= <-]. rewrite location_add_location, Hloc. simpl.
  now rewrite add_location_idem.
Qed.

(** The detector reads the MAC and the coordinates of a record only. *)
Lemma add_record_same_sighting self record record' :
  same_sighting record record' ->
  CreepDetector.add_record self record' = CreepDetector.add_record self record.
Proof.
  intros (Hmac & Hlat & Hlon).
  unfold CreepDetector.add_record, no_fix, CreepDetector.location,
    CreepDetector.rounded_lat, CreepDetector.rounded_lon.
  now rewrite Hmac, Hlat, Hlon.
Qed.

Lemma add_records_fixed self record records :
  CreepDetector.add_record self record = Ok self ->
  Forall (same_sighting record) records ->
  CreepDetector.add_records self records = Ok self.
Proof.
  intros H. induction 1 as [|record' records Hsame _ IH]; simpl; [reflexivity|].
  rewrite (add_record_same_sighting _ _ _ Hsame), H. exact IH.
Qed.

(** C8. Creep idempotence on duplicates: a sequence of N records, N at
    least 1, that all carry the MAC and the coordinates of one record
    leaves the detector as that one record does (the same state, or the
    same exception); and for a record off the sentinel whose MAC the
    detector has not seen, that state holds exactly one fingerprint for
    the MAC. *)
Theorem creep_idempotent (self : CreepDetector.t) (record : WiGLERecord)
    (records : list WiGLERecord) :
  (1 <= length records)%nat ->
  Forall (same_sighting record) records ->
  CreepDetector.add_records self records = CreepDetector.add_record self record /\
  (no_fix record = false ->
   CreepDetector.mac_locations self !! mac record = None ->
   forall self', CreepDetector.add_records self records = Ok self' ->
   exists loc,
     CreepDetector.location self record = Ok loc /\
     CreepDetector.mac_locations self' !! mac record = Some {[loc]} /\
     size ({[loc]} : gset string) = 1%nat).
Proof.
  intros HN Hsame.
  assert (Heq : CreepDetector.add_records self records =
                CreepDetector.add_record self record).
  { destruct Hsame as [|record' records Hfirst Hrest]; [simpl in HN; lia|]. simpl.
    rewrite (add_record_same_sighting _ _ _ Hfirst).
    destruct (CreepDetector.add_record self record) as [self1|e] eqn:H1; simpl; [|reflexivity].
    apply (add_records_fixed self1 record); [|exact Hrest].
    eapply add_record_again, H1. }
  split; [exact Heq|].
  intros Hfix Hnew self' H. rewrite Heq in H.
  unfold CreepDetector.add_record in H. rewrite Hfix in H.
  destruct (CreepDetector.location self record) as [loc|]; simpl in H; [|discriminate].
  injection H as <-. exists loc. split; [reflexivity|]. split.
  - rewrite add_location_lookup, Hnew. simpl. f_equal. apply union_empty_r_L.
  - apply size_singleton.
Qed.

Lemma creep_idempotent_witness :
  CreepDetector.add_records fresh_detector
    [west_record; west_record_renamed; west_record] =
  Ok (CreepDetector.add_location fresh_detector (mac west_record) "40.00 -74.00").
Proof.
  rewrite (proj1 (creep_idempotent fresh_detector west_record
                    [west_record; west_record_renamed; west_record]
                    ltac:(simpl; lia)
                    ltac:(repeat constructor))).
  unfold CreepDetector.add_record.
  now rewrite west_record_has_fix, west_record_location.
Defined.

(** ** Encryption aggregator *)

Lemma SFmul_comm x y : SFmul prec emax x y = SFmul prec emax y x.
Proof.
  destruct x as [sx|sx| |sx mx ex], y as [sy|sy| |sy my ey]; simpl;
    rewrite ?(xorb_comm sx sy); try reflexivity.
  now rewrite (Pos.mul_comm mx my), (Z.add_comm ex ey).
Qed.

(** The product of two floats does not depend on their order. *)
Lemma float_mul_comm (x y : float) : (x * y)%float = (y * x)%float.
Proof.
  apply Prim2SF_inj. rewrite !mul_spec. apply SFmul_comm.
Qed.

Lemma foldr_add_ge (l : list Z) (x : Z) :
  Forall (fun y => 0 <= y) l -> x ∈ l -> x <= foldr Z.add 0 l.
Proof.
  induction 1 as [|y l Hy Hl IH]; simpl; intros Hin.
  - now apply elem_of_nil in Hin.
  - assert (0 <= foldr Z.add 0 l).
    { clear IH Hin. induction Hl; simpl; lia. }
    apply elem_of_cons in Hin as [->|Hin]; [lia|]. specialize (IH Hin). lia.
Qed.

(** Every count is at most the total when no count is negative. *)
Lemma count_le_total (counter : gmap string Z) (k : string) (c : Z) :
  (forall k' c', counter !! k' = Some c' -> 0 <= c') ->
  counter !! k = Some c -> c <= EncryptionAnalyzer.sum_values counter.
Proof.
  intros Hpos Hk. unfold EncryptionAnalyzer.sum_values. apply foldr_add_ge.
  - apply Forall_forall. intros y Hy.
    apply list_elem_of_fmap in Hy as ([k' c'] & -> & Hin).
    apply elem_of_map_to_list in Hin. simpl. eauto.
  - apply list_elem_of_fmap. exists (k, c). split; [reflexivity|].
    now apply elem_of_map_to_list.
Qed.

(** The counts of an analyzer the program can reach are at least 1. *)
Lemma reachable_counts_positive self :
  EncryptionAnalyzer.reachable self ->
  forall k c, EncryptionAnalyzer.encryption_counts self !! k = Some c -> 1 <= c.
Proof.
  induction 1 as [|self record Hr IH]; intros k c.
  - simpl. now rewrite lookup_empty.
  - unfold EncryptionAnalyzer.add_record.
    destruct (decide (EncryptionAnalyzer.network_id record
                        ∈ EncryptionAnalyzer.unique_networks self)); [apply IH|].
    simpl. destruct (decide (auth_mode record = k)) as [->|Hne].
    + rewrite lookup_insert_eq. intros [= <-].
      unfold EncryptionAnalyzer.counter_get.
      destruct (EncryptionAnalyzer.encryption_counts self !! k) as [c0|] eqn:Hk; simpl;
        [specialize (IH _ _ Hk)|]; lia.
    + rewrite lookup_insert_ne by exact Hne. apply IH.
Qed.

Lemma stats_loop_returns items total_count acc :
  NoDup items.*1 ->
  (forall k c, (k, c) ∈ items -> exists ratio, Py.int_truediv c total_count = Ok ratio) ->
  exists stats,
    EncryptionAnalyzer.stats_loop items total_count acc = Ok stats /\
    (forall k c, (k, c) ∈ items ->
       exists ratio, Py.int_truediv c total_count = Ok ratio /\
         stats !! k = Some (EncryptionAnalyzer.mkStats c (ratio * 100)%float total_count)) /\
    (forall k, k ∉ items.*1 -> stats !! k = acc !! k).
Proof.
  revert acc. induction items as [|[k0 c0] items IH]; intros acc Hnd Hdiv; simpl.
  - exists acc. split; [reflexivity|]. split; [|reflexivity].
    intros k c Hin. now apply elem_of_nil in Hin.
  - simpl in Hnd. apply NoDup_cons in Hnd as [Hk0 Hnd].
    destruct (Hdiv k0 c0) as [r0 Hr0]; [left|].
    unfold EncryptionAnalyzer.stats_entry. rewrite Hr0. simpl.
    destruct (IH (<[k0 := EncryptionAnalyzer.mkStats c0 (r0 * 100)%float total_count]> acc) Hnd)
      as (stats & Hstats & Hin & Hout).
    { intros k c Hkc. apply (Hdiv k c). now right. }
    exists stats. split; [exact Hstats|]. split.
    + intros k c Hkc. apply elem_of_cons in Hkc as [[= -> ->]|Hkc]; [|now apply Hin].
      exists r0. split; [exact Hr0|]. rewrite (Hout _ Hk0). apply lookup_insert_eq.
    + intros k Hk. apply not_elem_of_cons in Hk as [Hne Hk].
      rewrite (Hout _ Hk). now apply lookup_insert_ne.
Qed.

(** C9. Encryption aggregator: a record whose identity key was already
    seen leaves the analyzer, and so the counts, as they were; the
    statistics are the empty mapping when the total is zero; otherwise
    they are computed, and map each auth mode that was seen to its count,
    to the total (the sum of all counts) and to the percentage, which is
    100 times the quotient of the count by the total. *)
Theorem encryption_stats (self : EncryptionAnalyzer.t) :
  (forall record,
     EncryptionAnalyzer.network_id record ∈ EncryptionAnalyzer.unique_networks self ->
     EncryptionAnalyzer.add_record self record = self /\
     EncryptionAnalyzer.encryption_counts (EncryptionAnalyzer.add_record self record)
       = EncryptionAnalyzer.encryption_counts self) /\
  (EncryptionAnalyzer.sum_values (EncryptionAnalyzer.encryption_counts self) = 0 ->
   EncryptionAnalyzer.get_stats self = Ok ∅) /\
  (EncryptionAnalyzer.reachable self ->
   EncryptionAnalyzer.sum_values (EncryptionAnalyzer.encryption_counts self) <> 0 ->
   exists stats,
     EncryptionAnalyzer.get_stats self = Ok stats /\
     forall enc_type,
       match EncryptionAnalyzer.encryption_counts self !! enc_type with
       | Some c =>
           exists ratio,
             Py.int_truediv c
               (EncryptionAnalyzer.sum_values (EncryptionAnalyzer.encryption_counts self))
               = Ok ratio /\
             stats !! enc_type =
               Some (EncryptionAnalyzer.mkStats c (100 * ratio)%float
                       (EncryptionAnalyzer.sum_values
                          (EncryptionAnalyzer.encryption_counts self)))
       | None => stats !! enc_type = None
       end).
Proof.
  split; [|split].
  - intros record Hseen. unfold EncryptionAnalyzer.add_record.
    destruct (decide (EncryptionAnalyzer.network_id record
                        ∈ EncryptionAnalyzer.unique_networks self)); [now split|contradiction].
  - intros Hzero. unfold EncryptionAnalyzer.get_stats. now rewrite Hzero.
  - intros Hreach Hne. unfold EncryptionAnalyzer.get_stats.
    set (counter := EncryptionAnalyzer.encryption_counts self) in *.
    set (total_count := EncryptionAnalyzer.sum_values counter) in *.
    destruct (total_count =? 0) eqn:E; [apply Z.eqb_eq in E; contradiction|].
    pose proof (reachable_counts_positive self Hreach) as Hpos.
    assert (Hle : forall k c, counter !! k = Some c -> 1 <= c <= total_count).
    { intros k c Hk. split; [eapply Hpos, Hk|].
      eapply count_le_total; [|exact Hk]. intros k' c' Hk'. specialize (Hpos _ _ Hk'). lia. }
    destruct (stats_loop_returns (map_to_list counter) total_count ∅)
      as (stats & Hstats & Hin & Hout).
    { apply NoDup_fst_map_to_list. }
    { intros k c Hkc. apply elem_of_map_to_list in Hkc. specialize (Hle _ _ Hkc).
      assert (H0 : 0 < 2 ^ 1023) by (apply Z.pow_pos_nonneg; lia).
      apply int_truediv_returns; [lia|nia]. }
    exists stats. split; [exact Hstats|].
    intros enc_type. destruct (counter !! enc_type) as [c|] eqn:Hk.
    + destruct (Hin enc_type c) as (ratio & Hr & Hs); [now apply elem_of_map_to_list|].
      exists ratio. split; [exact Hr|]. now rewrite float_mul_comm.
    + rewrite Hout; [apply lookup_empty|].
      intros Hin'. apply list_elem_of_fmap in Hin' as ([k c] & -> & Hkc).
      apply elem_of_map_to_list in Hkc. simpl in Hk. congruence.
Qed.

(** The percentage is 100 times the rounded quotient. Taken the other
    way, as the quotient of 100 times the count by the total, the last bit
    may differ: for one network out of three the analyzer reports the
    first of these two numbers. *)
Lemma percentage_of_a_third :
  (ratio ← Py.int_truediv 1 3; Ok (ratio * 100)%float) = Ok 33.33333333333333%float /\
  Py.int_truediv (100 * 1) 3 = Ok 33.333333333333336%float.
Proof. split; vm_compute; reflexivity. Qed.

Lemma three_sightings_count_once :
  EncryptionAnalyzer.encryption_counts three_sightings = {["WPA2" := 1]}.
Proof. vm_compute. reflexivity. Qed.

Lemma three_sightings_reachable : EncryptionAnalyzer.reachable three_sightings.
Proof. repeat constructor. Qed.

Lemma encryption_stats_witness :
  EncryptionAnalyzer.add_record three_sightings home_record = three_sightings /\
  EncryptionAnalyzer.get_stats EncryptionAnalyzer.init = Ok ∅ /\
  exists stats, EncryptionAnalyzer.get_stats three_sightings = Ok stats /\
    stats !! "WPA2" = Some (EncryptionAnalyzer.mkStats 1 100 1).
Proof.
  split; [|split].
  - apply (proj1 (encryption_stats three_sightings)). vm_compute. reflexivity.
  - apply (proj1 (proj2 (encryption_stats EncryptionAnalyzer.init))). reflexivity.
  - destruct (proj2 (proj2 (encryption_stats three_sightings)) three_sightings_reachable)
      as (stats & Hstats & Hall).
    { rewrite three_sightings_count_once. vm_compute. discriminate. }
    exists stats. split; [exact Hstats|].
    specialize (Hall "WPA2"). rewrite three_sightings_count_once in Hall.
    rewrite lookup_singleton_eq in Hall. destruct Hall as (ratio & Hr & ->).
    vm_compute in Hr. injection Hr as <-. reflexivity.
Defined.

(** ** CSV round trip *)

(** The row the writer is given reads back as the record, as long as the
    text of each coordinate reads back as the coordinate. *)
Lemma row_round_trip (record : WiGLERecord) :
  Py.float_of_string (Py.repr_float (latitude record)) = Ok (latitude record) ->
  Py.float_of_string (Py.repr_float (longitude record)) = Ok (longitude record) ->
  from_csv_row (row_of_record record) = Ok (Some record).
Proof.
  intros Hlat Hlon. destruct record. simpl in *.
  unfold from_csv_row. simpl.
  erewrite build_record_ok; try reflexivity; right; assumption.
Qed.

(** Two records written and read back as they were. *)
Lemma plain_records_round_trip :
  read_csv_file (write_csv_file [home_record; lost_record])
  = Ok [home_record; lost_record].
Proof. vm_compute. reflexivity. Qed.

(** A record built by hand with a carriage return in its SSID does not
    come back as it was: the writer quotes the field and [write_csv_file]
    writes it as it is (the file is opened with [newline='']), but
    [read_csv_file] opens the file without [newline=''], so the carriage
    return inside the quoted field is read as a line feed. The program
    writes only records it has read, and those hold no carriage return. *)
Lemma carriage_return_not_round_tripped :
  write_csv_file [guest_record] =
    header_lines +:+ "AA:BB:CC:DD:EE:04," +:+ Csv.quoted (ssid guest_record)
      +:+ ",WPA2,2023-01-01,6,-50,40.001,-74.001,10,5,WIFI" +:+ Csv.lineterminator /\
  read_csv_file (write_csv_file [guest_record]) = Ok [guest_record_read] /\
  ssid guest_record_read = "Guest" +:+ Py.str_of_char Py.LF +:+ "Net" /\
  ssid guest_record = "Guest" +:+ Py.str_of_char Py.CR +:+ "Net" /\
  ssid guest_record_read <> ssid guest_record.
Proof.
  split; [vm_compute; reflexivity|].
  split; [vm_compute; reflexivity|].
  split; [reflexivity|]. split; [reflexivity|].
  vm_compute. discriminate.
Qed.

(** *** No carriage return comes back from a file *)

Lemma no_cr_str_of_list l : no_cr l -> no_cr_str (string_of_list_ascii l).
Proof. unfold no_cr_str. now rewrite list_ascii_of_string_of_list_ascii. Qed.

Lemma universal_newlines_eq c s :
  universal_newlines (String c s) =
  if Ascii.eqb c Py.CR then
    match s with
    | String c' s' =>
        if Ascii.eqb c' Py.LF then String Py.LF (universal_newlines s')
        else String Py.LF (universal_newlines s)
    | EmptyString => String Py.LF EmptyString
    end
  else String c (universal_newlines s).
Proof. destruct s; reflexivity. Qed.

Lemma LF_not_CR : Py.LF <> Py.CR.
Proof. discriminate. Qed.

Lemma universal_newlines_no_cr s : no_cr_str (universal_newlines s).
Proof.
  assert (H : forall n s, (String.length s <= n)%nat -> no_cr_str (universal_newlines s)).
  { clear s. induction n as [|n IH]; intros [|c s] Hlen; simpl in Hlen;
      try (constructor; fail); [lia|].
    rewrite universal_newlines_eq.
    destruct (Ascii.eqb c Py.CR) eqn:Ec.
    - destruct s as [|c' s'].
      + repeat constructor. apply LF_not_CR.
      + destruct (Ascii.eqb c' Py.LF).
        * constructor; [apply LF_not_CR|]. apply IH. simpl in Hlen. lia.
        * constructor; [apply LF_not_CR|]. apply IH. lia.
    - constructor; [now apply Ascii.eqb_neq|]. apply IH. lia. }
  now apply (H (String.length s)).
Qed.

Lemma split_lines_no_cr line s :
  no_cr line -> no_cr_str s -> Forall no_cr_str (split_lines line s).
Proof.
  revert line. induction s as [|c s IH]; intros line Hline Hs; simpl.
  - destruct line; constructor; [|constructor].
    apply no_cr_str_of_list, Forall_rev, Hline.
  - unfold no_cr_str in Hs. simpl in Hs. apply Forall_cons in Hs as [Hc Hs].
    destruct (Ascii.eqb c Py.LF).
    + constructor.
      * apply no_cr_str_of_list. change (no_cr (rev (c :: line))).
        apply Forall_rev. now constructor.
      * apply IH; [constructor|exact Hs].
    + apply IH; [now constructor|exact Hs].
Qed.

Lemma readlines_no_cr content : Forall no_cr_str (readlines content).
Proof.
  unfold readlines. apply split_lines_no_cr; [constructor|apply universal_newlines_no_cr].
Qed.

Lemma parse_save_field_no_cr self next :
  reader_no_cr self -> reader_no_cr (Csv.parse_save_field self next).
Proof.
  intros [Hf Hfs]. split; simpl; [constructor|].
  constructor; [|exact Hfs]. apply no_cr_str_of_list, Forall_rev, Hf.
Qed.

Lemma parse_add_char_no_cr self c next self' :
  Csv.parse_add_char self c next = Ok self' -> c <> Py.CR ->
  reader_no_cr self -> reader_no_cr self'.
Proof.
  unfold Csv.parse_add_char.
  destruct (Csv.field_size_limit <=? Z.of_nat (length (Csv.field self))); [discriminate|].
  intros [= <-] Hc [Hf Hfs]. split; simpl; [now constructor|exact Hfs].
Qed.

Lemma goto_no_cr self next : reader_no_cr self -> reader_no_cr (Csv.goto self next).
Proof. intros [Hf Hfs]. now split. Qed.

Ltac reader_step :=
  match goal with
  | H : Ok _ = Ok _ |- _ => injection H as <-
  | H : Raise _ = Ok _ |- _ => discriminate H
  | H : Csv.parse_add_char _ _ _ = Ok _ |- _ =>
      eapply parse_add_char_no_cr; [exact H|assumption|assumption]
  | H : context [if ?b then _ else _] |- _ => destruct b
  | |- reader_no_cr (Csv.parse_save_field _ _) => apply parse_save_field_no_cr; assumption
  | |- reader_no_cr (Csv.goto _ _) => apply goto_no_cr; assumption
  | |- reader_no_cr _ => assumption
  end.

Lemma parse_process_char_no_cr self i self' :
  Csv.parse_process_char self i = Ok self' ->
  (forall c, i = Csv.Char c -> c <> Py.CR) ->
  reader_no_cr self -> reader_no_cr self'.
Proof.
  unfold Csv.parse_process_char, Csv.start_field. intros H Hi Hok.
  destruct i as [c|]; [specialize (Hi c eq_refl)|clear Hi];
    destruct (Csv.state self); repeat reader_step.
Qed.

Lemma parse_line_no_cr line : forall self self',
  Csv.parse_line self line = Ok self' -> no_cr_str line ->
  reader_no_cr self -> reader_no_cr self'.
Proof.
  induction line as [|c line IH]; intros self self' H Hline Hok; simpl in H.
  - eapply parse_process_char_no_cr; [exact H|discriminate|exact Hok].
  - unfold no_cr_str in Hline. simpl in Hline. apply Forall_cons in Hline as [Hc Hline].
    destruct (Csv.parse_process_char self (Csv.Char c)) as [self1|] eqn:H1;
      simpl in H; [|discriminate].
    eapply IH; [exact H|exact Hline|].
    eapply parse_process_char_no_cr; [exact H1| |exact Hok].
    now intros c' [= <-].
Qed.

Lemma read_rows_no_cr lines : forall self rows,
  Csv.read_rows self lines = Ok rows -> Forall no_cr_str lines ->
  reader_no_cr self -> Forall (Forall no_cr_str) rows.
Proof.
  induction lines as [|line lines IH]; intros self rows H Hlines Hok; simpl in H.
  - assert (Hsaved : Forall no_cr_str
              (rev (Csv.fields (Csv.parse_save_field self Csv.START_RECORD)))).
    { apply Forall_rev. now apply parse_save_field_no_cr. }
    unfold Csv.parse_save_field in Hsaved. simpl in Hsaved.
    destruct (Csv.field self), (Csv.state self); injection H as <-;
      repeat constructor; exact Hsaved.
  - apply Forall_cons in Hlines as [Hline Hlines].
    destruct (Csv.parse_line self line) as [self1|] eqn:H1; simpl in H; [|discriminate].
    pose proof (parse_line_no_cr _ _ _ H1 Hline Hok) as Hok1.
    assert (Hnext : forall rows', Csv.read_rows self1 lines = Ok rows' ->
                                  Forall (Forall no_cr_str) rows').
    { intros rows' H'. eapply IH; eauto. }
    destruct (Csv.state self1); auto.
    destruct (Csv.read_rows Csv.parse_reset lines) as [rows1|] eqn:H2;
      simpl in H; [|discriminate].
    injection H as <-. constructor.
    + apply Forall_rev, Hok1.
    + eapply IH; [exact H2|exact Hlines|]. split; constructor.
Qed.

Lemma lookup_no_cr (row : list string) i s :
  Forall no_cr_str row -> row !! i = Some s -> no_cr_str s.
Proof. intros Hrow Hi. eapply Forall_lookup_1; eauto. Qed.

Lemma parse_rows_no_cr rows : forall records,
  parse_rows rows = Ok records -> Forall (Forall no_cr_str) rows ->
  Forall (fun r => no_cr_str (mac r) /\ no_cr_str (ssid r) /\ no_cr_str (auth_mode r))
    records.
Proof.
  induction rows as [|row rows IH]; intros records H Hrows; simpl in H.
  - injection H as <-. constructor.
  - apply Forall_cons in Hrows as [Hrow Hrows].
    destruct row as [|f row']; [now apply IH|].
    destruct (length (f :: row') <? 11)%nat eqn:Hlen; [now apply IH|].
    destruct (from_csv_row (f :: row')) as [o|] eqn:Hparse; simpl in H; [|discriminate].
    destruct (parse_rows rows) as [records'|]; simpl in H; [|discriminate].
    specialize (IH _ eq_refl Hrows).
    destruct o as [r|]; injection H as <-; [|exact IH].
    constructor; [|exact IH].
    apply from_csv_row_inv in Hparse as [Hge Hb].
    apply build_record_inv in Hb as (H0 & H1 & H2 & _); [|apply Nat.ltb_lt; lia].
    repeat split; eapply lookup_no_cr; eauto.
Qed.

(** Whatever the file holds, no MAC, SSID or auth mode that
    [read_csv_file] returns has a carriage return in it. *)
Lemma read_csv_file_no_cr content records :
  read_csv_file content = Ok records ->
  Forall (fun r => no_cr_str (mac r) /\ no_cr_str (ssid r) /\ no_cr_str (auth_mode r))
    records.
Proof.
  unfold read_csv_file, Csv.reader. intros H.
  destruct (Csv.read_rows Csv.parse_reset
              (drop (find_data_start 0 (readlines content)) (readlines content)))
    as [rows|] eqn:Hrows; simpl in H; [|discriminate].
  eapply parse_rows_no_cr; [exact H|].
  eapply read_rows_no_cr; [exact Hrows| |split; constructor].
  apply Forall_drop, readlines_no_cr.
Qed.

(** So a list of records one of which has a carriage return in its SSID
    is never what reading the written file gives. *)
Lemma carriage_return_never_round_trips (records : list WiGLERecord) :
  Exists (fun r => ~ no_cr_str (ssid r)) records ->
  forall records', read_csv_file (write_csv_file records) = Ok records' ->
  (ssid <$> records') <> (ssid <$> records).
Proof.
  intros Hex records' Hread Heq.
  apply read_csv_file_no_cr in Hread.
  assert (Hall : Forall no_cr_str (ssid <$> records')).
  { rewrite Forall_fmap. eapply Forall_impl; [exact Hread|]. now intros r (_ & ? & _). }
  rewrite Heq, Forall_fmap, Forall_forall in Hall.
  apply Exists_exists in Hex as (r & Hin & Hr).
  exact (Hr (Hall r Hin)).
Qed.

(** ** Writing a file and reading it back *)

Lemma parse_chars_app self l1 l2 :
  parse_chars self (l1 ++ l2)%list = (self' ← parse_chars self l1; parse_chars self' l2).
Proof.
  revert self. induction l1 as [|c l1 IH]; intros self; simpl; [reflexivity|].
  destruct (Csv.parse_process_char self (Csv.Char c)); simpl; [apply IH|reflexivity].
Qed.

Lemma parse_line_chars self l :
  Csv.parse_line self (string_of_list_ascii l) =
  (self' ← parse_chars self l; Csv.parse_process_char self' Csv.EOL).
Proof.
  revert self. induction l as [|c l IH]; intros self; simpl.
  - now destruct (Csv.parse_process_char self Csv.EOL).
  - destruct (Csv.parse_process_char self (Csv.Char c)); simpl; [apply IH|reflexivity].
Qed.

Lemma run_chars self l rest :
  run self (map Csv.Char l ++ rest)%list = (self' ← parse_chars self l; run self' rest).
Proof.
  revert self. induction l as [|c l IH]; intros self; simpl; [reflexivity|].
  destruct (Csv.parse_process_char self (Csv.Char c)); simpl; [apply IH|reflexivity].
Qed.

Lemma run_EOL self rest :
  run self (Csv.EOL :: rest) =
  (self' ← Csv.parse_process_char self Csv.EOL;
   match Csv.state self' with
   | Csv.START_RECORD => rows ← run Csv.parse_reset rest; Ok (rev (Csv.fields self') :: rows)
   | _ => run self' rest
   end).
Proof. reflexivity. Qed.

(** Reading the lines of a text is running the reader over its inputs. *)
Lemma read_rows_split_lines s : forall line self,
  Csv.read_rows self (split_lines line s) =
  run self (map Csv.Char (rev line) ++ file_inputs (match line with [] => false | _ => true end) s)%list.
Proof.
  induction s as [|c s IH]; intros line self.
  - simpl split_lines. simpl file_inputs. destruct line as [|c0 line].
    + reflexivity.
    + rewrite run_chars. cbn [Csv.read_rows]. rewrite parse_line_chars.
      destruct (parse_chars self (rev (c0 :: line))) as [self1|]; [|reflexivity].
      cbn [mbind result_bind]. rewrite run_EOL.
      destruct (Csv.parse_process_char self1 Csv.EOL) as [self2|]; [|reflexivity].
      cbn [mbind result_bind]. reflexivity.
  - simpl split_lines. simpl file_inputs. destruct (Ascii.eqb c Py.LF) eqn:Ec.
    + cbn [Csv.read_rows]. rewrite parse_line_chars.
      change (Csv.Char c :: Csv.EOL :: file_inputs false s)
        with (map Csv.Char [c] ++ Csv.EOL :: file_inputs false s)%list.
      rewrite app_assoc, <- map_app, run_chars.
      change (rev line ++ [c])%list with (rev (c :: line)).
      destruct (parse_chars self (rev (c :: line))) as [self1|]; [|reflexivity].
      cbn [mbind result_bind]. rewrite run_EOL.
      destruct (Csv.parse_process_char self1 Csv.EOL) as [self2|]; [|reflexivity].
      cbn [mbind result_bind].
      pose proof (IH [] self2) as IH2. pose proof (IH [] Csv.parse_reset) as IH0.
      simpl in IH2, IH0. rewrite IH2, IH0. reflexivity.
    + rewrite (IH (c :: line) self). simpl rev. rewrite map_app, <- app_assoc. reflexivity.
Qed.

Lemma line_inputs_app a b : line_inputs (a +:+ b) = (line_inputs a ++ line_inputs b)%list.
Proof.
  induction a as [|c a IH]; simpl; [reflexivity|].
  destruct (Ascii.eqb c Py.LF); simpl; now rewrite IH.
Qed.

Lemma run_Char self c rest :
  run self (Csv.Char c :: rest) =
  (self' ← Csv.parse_process_char self (Csv.Char c); run self' rest).
Proof. reflexivity. Qed.

Lemma add_char_ok st fs acc c next :
  Z.of_nat (length acc) < Csv.field_size_limit ->
  Csv.parse_add_char (Csv.mkReader st fs acc) c next = Ok (Csv.mkReader next fs (c :: acc)).
Proof.
  intros H. unfold Csv.parse_add_char. simpl.
  destruct (Csv.field_size_limit <=? Z.of_nat (length acc)) eqn:E; [|reflexivity].
  apply Z.leb_le in E. lia.
Qed.

Lemma special_false c :
  Csv.special c = false ->
  Ascii.eqb c Csv.delimiter = false /\ Ascii.eqb c Csv.quotechar = false /\
  Csv.is_newline c = false.
Proof.
  unfold Csv.special. rewrite !orb_false_iff. tauto.
Qed.

Lemma quotechar_plain :
  Csv.is_newline Csv.quotechar = false /\ Ascii.eqb Csv.quotechar Csv.delimiter = false /\
  Ascii.eqb Csv.quotechar Py.LF = false.
Proof. repeat split. Qed.

Lemma step_quote_in_quoted fs acc :
  Csv.parse_process_char (Csv.mkReader Csv.IN_QUOTED_FIELD fs acc) (Csv.Char Csv.quotechar)
  = Ok (Csv.mkReader Csv.QUOTE_IN_QUOTED_FIELD fs acc).
Proof. reflexivity. Qed.

Lemma step_quote_after_quote fs acc :
  Z.of_nat (length acc) < Csv.field_size_limit ->
  Csv.parse_process_char (Csv.mkReader Csv.QUOTE_IN_QUOTED_FIELD fs acc)
    (Csv.Char Csv.quotechar)
  = Ok (Csv.mkReader Csv.IN_QUOTED_FIELD fs (Csv.quotechar :: acc)).
Proof. intros H. unfold Csv.parse_process_char. simpl. now apply add_char_ok. Qed.

Lemma step_in_quoted fs acc c :
  Ascii.eqb c Csv.quotechar = false ->
  Z.of_nat (length acc) < Csv.field_size_limit ->
  Csv.parse_process_char (Csv.mkReader Csv.IN_QUOTED_FIELD fs acc) (Csv.Char c)
  = Ok (Csv.mkReader Csv.IN_QUOTED_FIELD fs (c :: acc)).
Proof.
  intros Hq H. unfold Csv.parse_process_char. cbn [Csv.state]. rewrite Hq.
  now apply add_char_ok.
Qed.

Lemma step_in_field fs acc c :
  Csv.special c = false ->
  Z.of_nat (length acc) < Csv.field_size_limit ->
  Csv.parse_process_char (Csv.mkReader Csv.IN_FIELD fs acc) (Csv.Char c)
  = Ok (Csv.mkReader Csv.IN_FIELD fs (c :: acc)).
Proof.
  intros Hc H. destruct (special_false _ Hc) as (Hd & Hq & Hn).
  unfold Csv.parse_process_char. cbn [Csv.state]. rewrite Hn, Hd.
  now apply add_char_ok.
Qed.

Lemma step_start st fs c :
  st = Csv.START_RECORD \/ st = Csv.START_FIELD ->
  Csv.special c = false ->
  Csv.parse_process_char (Csv.mkReader st fs []) (Csv.Char c)
  = Ok (Csv.mkReader Csv.IN_FIELD fs [c]).
Proof.
  intros Hst Hc. destruct (special_false _ Hc) as (Hd & Hq & Hn).
  destruct Hst as [-> | ->]; unfold Csv.parse_process_char, Csv.start_field;
    cbn [Csv.state]; rewrite Hn, ?Hq, ?Hd; now apply add_char_ok.
Qed.

Lemma step_start_quote st fs :
  st = Csv.START_RECORD \/ st = Csv.START_FIELD ->
  Csv.parse_process_char (Csv.mkReader st fs []) (Csv.Char Csv.quotechar)
  = Ok (Csv.mkReader Csv.IN_QUOTED_FIELD fs []).
Proof. intros [-> | ->]; reflexivity. Qed.

Lemma special_not_LF c : Csv.special c = false -> Ascii.eqb c Py.LF = false.
Proof.
  intros Hc. destruct (special_false _ Hc) as (_ & _ & Hn).
  unfold Csv.is_newline in Hn. now apply orb_false_iff in Hn.
Qed.

(** The inside of a quoted field, as the reader takes it. *)
Lemma run_quoted_body f : forall fs acc rest,
  Z.of_nat (length acc + String.length f) <= Csv.field_size_limit ->
  run (Csv.mkReader Csv.IN_QUOTED_FIELD fs acc)
      (line_inputs (Csv.double_quotes f) ++ rest)%list =
  run (Csv.mkReader Csv.IN_QUOTED_FIELD fs (rev (list_ascii_of_string f) ++ acc)%list) rest.
Proof.
  induction f as [|c f IH]; intros fs acc rest Hlen; [reflexivity|].
  simpl String.length in Hlen.
  assert (Hacc : Z.of_nat (length acc) < Csv.field_size_limit) by lia.
  assert (Hnext : run (Csv.mkReader Csv.IN_QUOTED_FIELD fs (c :: acc))
                    (line_inputs (Csv.double_quotes f) ++ rest)%list =
                  run (Csv.mkReader Csv.IN_QUOTED_FIELD fs
                         (rev (list_ascii_of_string (String c f)) ++ acc)%list) rest).
  { rewrite IH by (simpl; lia). simpl. now rewrite <- app_assoc. }
  simpl Csv.double_quotes. destruct (Ascii.eqb c Csv.quotechar) eqn:Eq.
  - apply Ascii.eqb_eq in Eq. subst c.
    cbn [line_inputs]. rewrite (proj2 (proj2 quotechar_plain)).
    cbn [app]. rewrite run_Char, step_quote_in_quoted. cbn [mbind result_bind].
    rewrite run_Char, step_quote_after_quote by exact Hacc. cbn [mbind result_bind].
    exact Hnext.
  - cbn [line_inputs]. destruct (Ascii.eqb c Py.LF) eqn:El.
    + cbn [app]. rewrite run_Char, step_in_quoted by assumption.
      cbn [mbind result_bind]. rewrite run_EOL. cbn. exact Hnext.
    + cbn [app]. rewrite run_Char, step_in_quoted by assumption.
      cbn [mbind result_bind]. exact Hnext.
Qed.

(** A field with nothing to quote, past its first character. *)
Lemma run_plain_body f : forall fs acc rest,
  Csv.has_special f = false ->
  Z.of_nat (length acc + String.length f) <= Csv.field_size_limit ->
  run (Csv.mkReader Csv.IN_FIELD fs acc) (line_inputs f ++ rest)%list =
  run (Csv.mkReader Csv.IN_FIELD fs (rev (list_ascii_of_string f) ++ acc)%list) rest.
Proof.
  induction f as [|c f IH]; intros fs acc rest Hplain Hlen; [reflexivity|].
  simpl in Hplain. apply orb_false_iff in Hplain as [Hc Hplain].
  simpl String.length in Hlen.
  cbn [line_inputs]. rewrite (special_not_LF _ Hc). cbn [app].
  rewrite run_Char, step_in_field by (try assumption; lia). cbn [mbind result_bind].
  rewrite IH by (try assumption; simpl; lia). simpl. now rewrite <- app_assoc.
Qed.

Lemma saved_field f :
  string_of_list_ascii (rev (rev (list_ascii_of_string f) ++ [])) = f.
Proof. now rewrite app_nil_r, rev_involutive, string_of_list_ascii_of_string. Qed.

Lemma run_field st fs f rest :
  starts st -> fits f ->
  run (Csv.mkReader st fs []) (line_inputs (Csv.write_field f) ++ rest)%list =
  run (after_field st fs f) rest.
Proof.
  intros Hst Hfit. unfold fits in Hfit. unfold Csv.write_field, after_field.
  destruct (Csv.has_special f) eqn:Hs.
  - unfold Csv.quoted. cbn [line_inputs].
    rewrite (proj2 (proj2 quotechar_plain)). rewrite line_inputs_app.
    cbn [line_inputs]. rewrite (proj2 (proj2 quotechar_plain)).
    cbn [app]. rewrite run_Char, (step_start_quote _ _ Hst). cbn [mbind result_bind].
    rewrite <- app_assoc.
    rewrite run_quoted_body by (simpl; lia). cbn [app].
    rewrite run_Char, step_quote_in_quoted. cbn [mbind result_bind].
    now rewrite app_nil_r.
  - destruct f as [|c f]; [reflexivity|].
    simpl in Hs. apply orb_false_iff in Hs as [Hc Hs].
    simpl String.length in Hfit.
    cbn [line_inputs]. rewrite (special_not_LF _ Hc). cbn [app].
    rewrite run_Char, (step_start _ _ _ Hst Hc). cbn [mbind result_bind].
    rewrite run_plain_body by (try assumption; simpl; lia). reflexivity.
Qed.

Lemma save_after st fs f next :
  Csv.parse_save_field (Csv.mkReader st fs (rev (list_ascii_of_string f))) next =
  Csv.mkReader next (f :: fs) [].
Proof.
  unfold Csv.parse_save_field. cbn [Csv.field Csv.fields].
  now rewrite rev_involutive, string_of_list_ascii_of_string.
Qed.

(** The delimiter after a field saves the field. *)
Lemma after_field_delimiter st fs f :
  starts st ->
  Csv.parse_process_char (after_field st fs f) (Csv.Char Csv.delimiter) =
  Ok (Csv.mkReader Csv.START_FIELD (f :: fs) []).
Proof.
  intros Hst. unfold after_field. destruct (Csv.has_special f).
  - unfold Csv.parse_process_char. cbn [Csv.state].
    change (Ascii.eqb Csv.delimiter Csv.quotechar) with false.
    change (Ascii.eqb Csv.delimiter Csv.delimiter) with true.
    cbv iota. now rewrite save_after.
  - destruct f as [|c f].
    + destruct Hst as [-> | ->]; reflexivity.
    + unfold Csv.parse_process_char. cbn [Csv.state].
      change (Csv.is_newline Csv.delimiter) with false.
      change (Ascii.eqb Csv.delimiter Csv.delimiter) with true.
      cbv iota. now rewrite save_after.
Qed.

(** The end of the row after a field saves the field and ends the row. *)
Lemma after_field_newline st fs f :
  st = Csv.START_FIELD ->
  (c ← Csv.parse_process_char (after_field st fs f) (Csv.Char Py.LF);
   Csv.parse_process_char c Csv.EOL) =
  Ok (Csv.mkReader Csv.START_RECORD (f :: fs) []).
Proof.
  intros ->. unfold after_field. destruct (Csv.has_special f).
  - unfold Csv.parse_process_char at 2. cbn [Csv.state].
    change (Ascii.eqb Py.LF Csv.quotechar) with false.
    change (Ascii.eqb Py.LF Csv.delimiter) with false.
    change (Csv.is_newline Py.LF) with true.
    cbv iota. now rewrite save_after.
  - destruct f as [|c f].
    + reflexivity.
    + unfold Csv.parse_process_char at 2. cbn [Csv.state].
      change (Csv.is_newline Py.LF) with true.
      cbv iota. now rewrite save_after.
Qed.

Lemma bind_Ok_inv {A B} (m : result A) (k : A -> result B) (b : B) :
  (a ← m; k a) = Ok b -> exists a, m = Ok a /\ k a = Ok b.
Proof. destruct m as [a|e]; simpl; [eauto|discriminate]. Qed.

Lemma run_row_end st fs f rest :
  st = Csv.START_FIELD ->
  run (after_field st fs f) (Csv.Char Py.LF :: Csv.EOL :: rest) =
  (rows ← run Csv.parse_reset rest; Ok (rev (f :: fs) :: rows)).
Proof.
  intros Hst. destruct (bind_Ok_inv _ _ _ (after_field_newline st fs f Hst))
    as (c1 & H1 & H2).
  rewrite run_Char, H1. cbn [mbind result_bind]. rewrite run_EOL, H2. reflexivity.
Qed.

Lemma line_inputs_delimiter s :
  line_inputs (String Csv.delimiter s) = Csv.Char Csv.delimiter :: line_inputs s.
Proof. reflexivity. Qed.

(** The fields of a row after its first one. *)
Lemma run_row_tail fs : forall done rest,
  fs <> [] -> Forall fits fs ->
  run (Csv.mkReader Csv.START_FIELD done [])
      (line_inputs (Csv.join_fields fs) ++ Csv.Char Py.LF :: Csv.EOL :: rest)%list =
  (rows ← run Csv.parse_reset rest; Ok ((rev done ++ fs)%list :: rows)).
Proof.
  induction fs as [|f fs IH]; intros done rest Hne Hfit; [congruence|].
  apply Forall_cons in Hfit as [Hf Hfit].
  destruct fs as [|f' fs].
  - cbn [Csv.join_fields]. rewrite run_field by (try assumption; now right).
    apply run_row_end. reflexivity.
  - change (Csv.join_fields (f :: f' :: fs))
      with (Csv.write_field f +:+ String Csv.delimiter (Csv.join_fields (f' :: fs))).
    rewrite line_inputs_app, line_inputs_delimiter, <- app_assoc.
    rewrite run_field by (try assumption; now right).
    cbn [app]. rewrite run_Char, after_field_delimiter by (now right).
    cbn [mbind result_bind]. rewrite IH by (try assumption; discriminate).
    simpl rev. now rewrite <- app_assoc.
Qed.

(** A row of at least two fields is read as it was written. *)
Lemma run_row fs rest :
  (2 <= length fs)%nat -> Forall fits fs ->
  run Csv.parse_reset
      (line_inputs (Csv.join_fields fs) ++ Csv.Char Py.LF :: Csv.EOL :: rest)%list =
  (rows ← run Csv.parse_reset rest; Ok (fs :: rows)).
Proof.
  intros Hlen Hfit. destruct fs as [|f [|f' fs]]; simpl in Hlen; try lia.
  apply Forall_cons in Hfit as [Hf Hfit].
  change (Csv.join_fields (f :: f' :: fs))
    with (Csv.write_field f +:+ String Csv.delimiter (Csv.join_fields (f' :: fs))).
  rewrite line_inputs_app, line_inputs_delimiter, <- app_assoc.
  unfold Csv.parse_reset at 1.
  rewrite run_field by (try assumption; now left).
  cbn [app]. rewrite run_Char, after_field_delimiter by (now left).
  cbn [mbind result_bind]. rewrite run_row_tail by (try assumption; discriminate).
  reflexivity.
Qed.

Lemma file_inputs_row a : forall pending b,
  no_cr_str a -> True ->
  file_inputs pending (a +:+ String Py.LF b) =
  (line_inputs a ++ Csv.Char Py.LF :: Csv.EOL :: file_inputs false b)%list.
Proof.
  induction a as [|c a IH]; intros pending b Ha _; [reflexivity|].
  unfold no_cr_str in Ha. simpl in Ha. apply Forall_cons in Ha as [_ Ha].
  simpl. destruct (Ascii.eqb c Py.LF); simpl; now rewrite IH.
Qed.

Lemma list_ascii_of_string_app a b :
  list_ascii_of_string (a +:+ b) = (list_ascii_of_string a ++ list_ascii_of_string b)%list.
Proof. induction a as [|c a IH]; simpl; [reflexivity|]. now rewrite IH. Qed.

Lemma no_cr_str_app a b : no_cr_str a -> no_cr_str b -> no_cr_str (a +:+ b).
Proof.
  unfold no_cr_str, no_cr. rewrite list_ascii_of_string_app. intros Ha Hb.
  apply Forall_app. now split.
Qed.

Lemma no_cr_double_quotes s : no_cr_str s -> no_cr_str (Csv.double_quotes s).
Proof.
  unfold no_cr_str, no_cr. induction s as [|c s IH]; simpl; intros H; [constructor|].
  apply Forall_cons in H as [Hc H].
  destruct (Ascii.eqb c Csv.quotechar); simpl; repeat (constructor; [exact Hc|]); auto.
Qed.

Lemma no_cr_write_field f : no_cr_str f -> no_cr_str (Csv.write_field f).
Proof.
  intros H. unfold Csv.write_field. destruct (Csv.has_special f); [|exact H].
  unfold Csv.quoted. change (String Csv.quotechar ?s) with (String Csv.quotechar "" +:+ s).
  apply no_cr_str_app; [repeat constructor; discriminate|].
  apply no_cr_str_app; [now apply no_cr_double_quotes|repeat constructor; discriminate].
Qed.

Lemma no_cr_join_fields fs : Forall no_cr_str fs -> no_cr_str (Csv.join_fields fs).
Proof.
  induction 1 as [|f fs Hf Hfs IH]; [constructor|].
  destruct fs as [|f' fs]; [now apply no_cr_write_field|].
  change (Csv.join_fields (f :: f' :: fs))
    with (Csv.write_field f +:+ (String Csv.delimiter "" +:+ Csv.join_fields (f' :: fs))).
  apply no_cr_str_app; [now apply no_cr_write_field|].
  apply no_cr_str_app; [repeat constructor; discriminate|exact IH].
Qed.

(** Text mode leaves a text without carriage returns as it is. *)
Lemma universal_newlines_app a b :
  no_cr_str a -> universal_newlines (a +:+ b) = a +:+ universal_newlines b.
Proof.
  unfold no_cr_str, no_cr. induction a as [|c a IH]; intros Ha; [reflexivity|].
  simpl in Ha. apply Forall_cons in Ha as [Hc Ha].
  change (String c a +:+ b) with (String c (a +:+ b)).
  rewrite universal_newlines_eq.
  apply Ascii.eqb_neq in Hc. rewrite Hc. simpl. now rewrite IH.
Qed.

Lemma universal_newlines_lineterminator b :
  universal_newlines (Csv.lineterminator +:+ b) = String Py.LF (universal_newlines b).
Proof. reflexivity. Qed.

Lemma string_app_assoc (a b c : string) : (a +:+ b) +:+ c = a +:+ (b +:+ c).
Proof.
  induction a as [|x a IH]; [reflexivity|].
  change (String x ((a +:+ b) +:+ c) = String x (a +:+ (b +:+ c))). now rewrite IH.
Qed.

Lemma writerow_fields f f' fs :
  Csv.writerow (f :: f' :: fs) = Csv.join_fields (f :: f' :: fs) +:+ Csv.lineterminator.
Proof. destruct f; reflexivity. Qed.

(** The rows [write_csv_file] writes, read in text mode and cut into
    lines, give the reader the rows back. *)
Lemma written_rows_read_back records :
  Forall (fun r => Forall (fun f => no_cr_str f /\ fits f) (row_of_record r)) records ->
  run Csv.parse_reset (file_inputs false (universal_newlines (write_rows records)))
  = Ok (row_of_record <$> records).
Proof.
  induction 1 as [|r records Hr Hrs IH]; [reflexivity|].
  assert (Hcr : Forall no_cr_str (row_of_record r)).
  { eapply Forall_impl; [exact Hr|]. now intros f [? _]. }
  assert (Hfit : Forall fits (row_of_record r)).
  { eapply Forall_impl; [exact Hr|]. now intros f [_ ?]. }
  cbn [write_rows].
  assert (Hw : Csv.writerow (row_of_record r) =
               Csv.join_fields (row_of_record r) +:+ Csv.lineterminator)
    by apply writerow_fields.
  rewrite Hw, string_app_assoc.
  rewrite universal_newlines_app by (now apply no_cr_join_fields).
  rewrite universal_newlines_lineterminator.
  rewrite file_inputs_row by (try exact I; now apply no_cr_join_fields).
  rewrite run_row by (try assumption; simpl; lia).
  rewrite IH. reflexivity.
Qed.

Lemma parse_rows_written records :
  Forall (fun r =>
    Py.float_of_string (Py.repr_float (latitude r)) = Ok (latitude r) /\
    Py.float_of_string (Py.repr_float (longitude r)) = Ok (longitude r)) records ->
  parse_rows (row_of_record <$> records) = Ok records.
Proof.
  induction 1 as [|r records [Hlat Hlon] _ IH]; [reflexivity|].
  cbn [fmap list_fmap]. change (list_fmap _ _ row_of_record records)
    with (row_of_record <$> records).
  unfold parse_rows; fold parse_rows.
  change (length (row_of_record r) <? 11)%nat with false. cbv iota.
  unfold row_of_record at 1. cbv iota.
  change (length (row_of_record r) <? 11)%nat with false. cbv iota.
  rewrite (row_round_trip r Hlat Hlon). cbn [mbind result_bind].
  rewrite IH. reflexivity.
Qed.

Lemma header_lines_no_cr : no_cr_str header_lines.
Proof. apply (bool_decide_unpack _). vm_compute. exact I. Qed.

Lemma header_lines_split s :
  split_lines [] (header_lines +:+ s) =
  ("WiGLE.net Python Processor" +:+ Py.str_of_char Py.LF)
  :: ("MAC,SSID,AuthMode,FirstSeen,Channel,RSSI,CurrentLatitude,CurrentLongitude,AltitudeMeters,AccuracyMeters,Type"
      +:+ Py.str_of_char Py.LF)
  :: split_lines [] s.
Proof. reflexivity. Qed.

(** X1. A file written by [write_csv_file] reads back, with
    [read_csv_file], as the records written, in their order, as long as
    no field written holds a carriage return or is longer than the reader
    takes, and the text of each coordinate reads back as the coordinate. *)
Theorem csv_file_round_trip (records : list WiGLERecord) :
  Forall kept_by_file records ->
  read_csv_file (write_csv_file records) = Ok records.
Proof.
  intros Hkept. unfold read_csv_file, write_csv_file, readlines.
  rewrite universal_newlines_app by apply header_lines_no_cr.
  rewrite header_lines_split.
  change (find_data_start 0 (?l0 :: ?l1 :: ?rest)) with 2%nat.
  change (drop 2 (?l0 :: ?l1 :: ?rest)) with rest. unfold Csv.reader.
  rewrite (read_rows_split_lines _ [] Csv.parse_reset). cbn [rev map app].
  rewrite written_rows_read_back.
  - cbn [mbind result_bind]. apply parse_rows_written.
    eapply Forall_impl; [exact Hkept|]. now intros r (_ & ? & ?).
  - eapply Forall_impl; [exact Hkept|]. now intros r (? & _).
Qed.

Lemma csv_file_round_trip_witness :
  read_csv_file (write_csv_file [home_record; guest_record_read; lost_record])
  = Ok [home_record; guest_record_read; lost_record].
Proof.
  apply csv_file_round_trip.
  repeat (constructor;
          [split; [apply (bool_decide_unpack _); vm_compute; exact I
                  |split; vm_compute; reflexivity]|]).
  constructor.
Defined.

(** ** Reading a file: the header *)

Lemma find_data_start_header pre : forall i h post,
  Forall (fun l => is_header l = false) pre -> is_header h = true ->
  find_data_start i (pre ++ h :: post)%list = S (i + length pre).
Proof.
  induction pre as [|l pre IH]; intros i h post Hpre Hh; simpl.
  - rewrite Hh. f_equal. lia.
  - apply Forall_cons in Hpre as [Hl Hpre]. rewrite Hl, IH by assumption. lia.
Qed.

Lemma find_data_start_none lines : forall i,
  Forall (fun l => is_header l = false) lines -> find_data_start i lines = 0%nat.
Proof.
  induction lines as [|l lines IH]; intros i Hl; simpl; [reflexivity|].
  apply Forall_cons in Hl as [Hl Hls]. rewrite Hl. now apply IH.
Qed.

(** X2. Header detection: the lines up to the first line that holds both
    ["MAC"] and ["SSID"], that line included, are not parsed, whatever
    they hold; the rows are those of the lines after it. Without such a
    line every line of the file is parsed. *)
Theorem header_detection (content : string) :
  (forall pre h post,
     readlines content = (pre ++ h :: post)%list ->
     Forall (fun l => is_header l = false) pre -> is_header h = true ->
     read_csv_file content = (rows ← Csv.reader post; parse_rows rows)) /\
  (Forall (fun l => is_header l = false) (readlines content) ->
   read_csv_file content = (rows ← Csv.reader (readlines content); parse_rows rows)).
Proof.
  split.
  - intros pre h post Hlines Hpre Hh. unfold read_csv_file. rewrite Hlines.
    rewrite find_data_start_header by assumption.
    change (S (0 + length pre)) with (S (length pre)).
    assert (Hd : drop (S (length pre)) (pre ++ h :: post)%list = post).
    { rewrite (cons_middle h pre post), app_assoc.
      apply drop_app_length'. rewrite length_app. simpl. lia. }
    now rewrite Hd.
  - intros Hnone. unfold read_csv_file.
    now rewrite find_data_start_none by assumption.
Qed.

Lemma header_detection_witness :
  read_csv_file windows_file = (rows ← Csv.reader [windows_data]; parse_rows rows) /\
  read_csv_file windows_data = (rows ← Csv.reader (readlines windows_data); parse_rows rows).
Proof.
  split.
  - apply (proj1 (header_detection windows_file) [windows_title] windows_header [windows_data]).
    + vm_compute. reflexivity.
    + repeat constructor.
    + vm_compute. reflexivity.
  - apply (proj2 (header_detection windows_data)). repeat constructor.
Defined.

Lemma prefix_split p : forall s, String.prefix p s = true -> exists t, s = p +:+ t.
Proof.
  induction p as [|c p IH]; intros s H.
  - now exists s.
  - destruct s as [|d s]; [discriminate|]. cbn [String.prefix] in H.
    destruct (Ascii.ascii_dec c d) as [e|]; [|discriminate]. subst d.
    destruct (IH s H) as [t Ht]. exists t. rewrite Ht. reflexivity.
Qed.

Lemma prefix_append p t : String.prefix p (p +:+ t) = true.
Proof.
  induction p as [|c p IH]; [now destruct t|].
  change (String c p +:+ t) with (String c (p +:+ t)). cbn [String.prefix].
  destruct (Ascii.ascii_dec c c); [exact IH | congruence].
Qed.

Lemma contains_prefix sub s : String.prefix sub s = true -> contains sub s = true.
Proof. intros H. destruct s; cbn [contains]; now rewrite H. Qed.

Lemma contains_skip sub c s : contains sub s = true -> contains sub (String c s) = true.
Proof. intros H. cbn [contains]. rewrite H. apply orb_true_r. Qed.

(** X3. The test [line.startswith('MAC,SSID')] of the header detection
    adds nothing: a line is taken for the header exactly when it holds
    both ["MAC"] and ["SSID"] somewhere. *)
Theorem is_header_contains (line : string) :
  is_header line = contains "MAC" line && contains "SSID" line.
Proof.
  unfold is_header.
  destruct (String.prefix "MAC,SSID" line) eqn:Hp; [|reflexivity].
  apply prefix_split in Hp as [t ->].
  assert (H1 : contains "MAC" ("MAC,SSID" +:+ t) = true).
  { apply contains_prefix. apply (prefix_append "MAC" (",SSID" +:+ t)). }
  assert (H2 : contains "SSID" ("MAC,SSID" +:+ t) = true).
  { change ("MAC,SSID" +:+ t)
      with (String "M" (String "A" (String "C" (String "," ("SSID" +:+ t))))).
    do 4 apply contains_skip. apply contains_prefix, prefix_append. }
  now rewrite H1, H2.
Qed.

(** ** Reading a file: the rows *)

Lemma item_app row extra i :
  (i < length row)%nat -> item (row ++ extra)%list i = item row i.
Proof. intros H. unfold item. now rewrite lookup_app_l. Qed.

(** X4. Fields after the eleventh are ignored: a row of at least eleven
    fields parses to the same record, or is rejected the same way,
    whatever follows it in the row. *)
Theorem from_csv_row_extra_fields (row extra : list string) :
  (11 <= length row)%nat ->
  from_csv_row (row ++ extra)%list = from_csv_row row.
Proof.
  intros Hlen. unfold from_csv_row.
  assert (Hl : (length (row ++ extra)%list <? 11)%nat = false).
  { apply Nat.ltb_ge. rewrite length_app. lia. }
  assert (Hr : (length row <? 11)%nat = false) by (apply Nat.ltb_ge; lia).
  rewrite Hl, Hr.
  assert (Hb : build_record (row ++ extra)%list = build_record row).
  { unfold build_record, coordinate.
    rewrite !item_app by lia.
    assert (H1 : (10 <? length (row ++ extra)%list)%nat = true).
    { apply Nat.ltb_lt. rewrite length_app. lia. }
    assert (H2 : (10 <? length row)%nat = true) by (apply Nat.ltb_lt; lia).
    now rewrite H1, H2. }
  now rewrite Hb.
Qed.

Lemma from_csv_row_extra_fields_witness :
  from_csv_row (home_row ++ ["2023-01-02"; "more"])%list = from_csv_row home_row.
Proof. apply from_csv_row_extra_fields. vm_compute. lia. Defined.

Lemma parse_rows_returns rows : exists records, parse_rows rows = Ok records.
Proof.
  induction rows as [|row rows [records IH]]; [now eexists|].
  cbn [parse_rows].
  destruct row as [|f row']; [now exists records|].
  destruct (length (f :: row') <? 11)%nat; [now exists records|].
  destruct (from_csv_row_returns (f :: row')) as [o ->]. rewrite IH. simpl.
  destruct o; now eexists.
Qed.

Lemma parse_add_char_raises self c next e :
  Csv.parse_add_char self c next = Raise e -> e = csv_Error.
Proof.
  unfold Csv.parse_add_char.
  destruct (Csv.field_size_limit <=? Z.of_nat (length (Csv.field self))); congruence.
Qed.

Lemma parse_process_char_raises self i e :
  Csv.parse_process_char self i = Raise e -> e = csv_Error.
Proof.
  unfold Csv.parse_process_char, Csv.start_field. intros H.
  destruct (Csv.state self), i as [c|];
    repeat match type of H with
           | context [if ?b then _ else _] => destruct b
           end;
    try discriminate; try congruence; eapply parse_add_char_raises; eassumption.
Qed.

Lemma parse_line_raises line : forall self e,
  Csv.parse_line self line = Raise e -> e = csv_Error.
Proof.
  induction line as [|c line IH]; intros self e H; simpl in H.
  - eapply parse_process_char_raises; eassumption.
  - destruct (Csv.parse_process_char self (Csv.Char c)) as [self1|e1] eqn:H1; simpl in H.
    + eapply IH; eassumption.
    + injection H as <-. eapply parse_process_char_raises; eassumption.
Qed.

Lemma read_rows_raises lines : forall self e,
  Csv.read_rows self lines = Raise e -> e = csv_Error.
Proof.
  induction lines as [|line lines IH]; intros self e H; simpl in H.
  - destruct (Csv.field self), (Csv.state self); discriminate.
  - destruct (Csv.parse_line self line) as [self1|e1] eqn:H1; simpl in H.
    + destruct (Csv.state self1); try (eapply IH; eassumption).
      destruct (Csv.read_rows Csv.parse_reset lines) as [rows|e2] eqn:H2; simpl in H;
        [discriminate|].
      injection H as <-. eapply IH; eassumption.
    + injection H as <-. eapply parse_line_raises; eassumption.
Qed.

(** X5. Whatever text a file holds, [read_csv_file] returns a list of
    records or raises [csv.Error]: a row that is short, or whose
    coordinates are not numbers, is left out and never stops the reading,
    and no [ValueError] or [IndexError] leaves the function. *)
Theorem read_csv_file_exceptions (content : string) :
  (exists records, read_csv_file content = Ok records) \/
  read_csv_file content = Raise csv_Error.
Proof.
  unfold read_csv_file.
  destruct (Csv.reader (drop (find_data_start 0 (readlines content)) (readlines content)))
    as [rows|e] eqn:Hrows; simpl.
  - left. apply parse_rows_returns.
  - right. f_equal. eapply read_rows_raises. exact Hrows.
Qed.

Lemma parse_rows_text_no_cr rows : forall records,
  parse_rows rows = Ok records -> Forall (Forall no_cr_str) rows ->
  Forall (fun r => Forall no_cr_str (text_fields r)) records.
Proof.
  induction rows as [|row rows IH]; intros records H Hrows; simpl in H.
  - injection H as <-. constructor.
  - apply Forall_cons in Hrows as [Hrow Hrows].
    destruct row as [|f row']; [now apply IH|].
    destruct (length (f :: row') <? 11)%nat eqn:Hlen; [now apply IH|].
    destruct (from_csv_row (f :: row')) as [o|] eqn:Hparse; simpl in H; [|discriminate].
    destruct (parse_rows rows) as [records'|]; simpl in H; [|discriminate].
    specialize (IH _ eq_refl Hrows).
    destruct o as [r|]; injection H as <-; [|exact IH].
    constructor; [|exact IH].
    apply from_csv_row_inv in Hparse as [Hge Hb].
    apply build_record_inv in Hb
      as (H0 & H1 & H2 & H3 & H4 & H5 & _ & _ & H8 & H9 & H10); [|apply Nat.ltb_lt; lia].
    unfold text_fields. repeat constructor; eapply lookup_no_cr; eauto.
Qed.

(** X6. Whatever the file holds, no text field of a record that
    [read_csv_file] returns has a carriage return in it: the file is read
    with the newline translation of text mode, before the rows are
    parsed. *)
Theorem read_csv_file_text_no_cr (content : string) (records : list WiGLERecord) :
  read_csv_file content = Ok records ->
  Forall (fun r => Forall no_cr_str (text_fields r)) records.
Proof.
  unfold read_csv_file, Csv.reader. intros H.
  destruct (Csv.read_rows Csv.parse_reset
              (drop (find_data_start 0 (readlines content)) (readlines content)))
    as [rows|] eqn:Hrows; simpl in H; [|discriminate].
  eapply parse_rows_text_no_cr; [exact H|].
  eapply read_rows_no_cr; [exact Hrows| |split; constructor].
  apply Forall_drop, readlines_no_cr.
Qed.

Lemma read_csv_file_text_no_cr_witness :
  Forall (fun r => Forall no_cr_str (text_fields r)) [home_record].
Proof. apply (read_csv_file_text_no_cr windows_file). vm_compute. reflexivity. Defined.

(** ** Reading a file: the field size limit *)

Lemma add_char_within self c next n :
  (length (Csv.field self) <= n)%nat -> Z.of_nat n < Csv.field_size_limit ->
  exists self', Csv.parse_add_char self c next = Ok self' /\
    Csv.state self' = next /\ (length (Csv.field self') <= S n)%nat.
Proof.
  intros Hn Hlim. unfold Csv.parse_add_char.
  destruct (Csv.field_size_limit <=? Z.of_nat (length (Csv.field self))) eqn:E.
  - apply Z.leb_le in E. lia.
  - eexists. split; [reflexivity|]. simpl. split; [reflexivity|lia].
Qed.

Ltac within_step :=
  match goal with
  | |- exists self', Csv.parse_add_char ?s ?c ?next = Ok self' /\ _ =>
      let self1 := fresh "self" in let H1 := fresh "H" in let H2 := fresh "H" in
      let H3 := fresh "H" in
      destruct (add_char_within s c next _ ltac:(eassumption) ltac:(eassumption))
        as (self1 & H1 & H2 & H3);
      exists self1; split; [exact H1|]
  | |- exists self', Ok ?s = Ok self' /\ _ => exists s; split; [reflexivity|]
  | |- context [if ?b then _ else _] => destruct b eqn:?
  end.

Lemma step_plain self c n :
  within self n -> Csv.is_newline c = false -> Z.of_nat n < Csv.field_size_limit ->
  exists self', Csv.parse_process_char self (Csv.Char c) = Ok self' /\ within self' (S n).
Proof.
  intros [Hst Hn] Hc Hlim.
  unfold Csv.parse_process_char, Csv.start_field. rewrite Hc.
  destruct (Csv.state self) eqn:Est; try congruence; repeat within_step;
    unfold within; simpl; try rewrite H0; (split; [discriminate|lia]).
Qed.

Lemma step_LF self n :
  within self n -> Z.of_nat n < Csv.field_size_limit ->
  exists self', Csv.parse_process_char self (Csv.Char Py.LF) = Ok self' /\
    (length (Csv.field self') <= S n)%nat.
Proof.
  intros [Hst Hn] Hlim.
  unfold Csv.parse_process_char, Csv.start_field.
  change (Csv.is_newline Py.LF) with true.
  change (Ascii.eqb Py.LF Csv.quotechar) with false.
  change (Ascii.eqb Py.LF Csv.delimiter) with false. cbv iota.
  destruct (Csv.state self) eqn:Est; try congruence; repeat within_step; simpl; lia.
Qed.

Lemma step_EOL self n :
  (length (Csv.field self) <= n)%nat ->
  exists self', Csv.parse_process_char self Csv.EOL = Ok self' /\ within self' n.
Proof.
  intros Hn. unfold Csv.parse_process_char, Csv.start_field.
  destruct (Csv.state self) eqn:Est; eexists; (split; [reflexivity|]);
    unfold within; simpl; try rewrite Est; (split; [discriminate|lia]).
Qed.

Lemma parse_chars_plain body : forall self n,
  within self n -> Forall (fun c => Csv.is_newline c = false) body ->
  Z.of_nat (n + length body) <= Csv.field_size_limit ->
  exists self', parse_chars self body = Ok self' /\ within self' (n + length body).
Proof.
  induction body as [|c body IH]; intros self n Hw Hbody Hlim; simpl.
  - exists self. split; [reflexivity|]. now rewrite Nat.add_0_r.
  - apply Forall_cons in Hbody as [Hc Hbody]. simpl in Hlim.
    destruct (step_plain self c n Hw Hc) as (self1 & -> & Hw1); [lia|]. simpl.
    destruct (IH self1 (S n) Hw1 Hbody) as (self2 & -> & Hw2); [lia|].
    exists self2. split; [reflexivity|]. now rewrite Nat.add_succ_r.
Qed.

Lemma length_string_of_list l : String.length (string_of_list_ascii l) = length l.
Proof. induction l; simpl; congruence. Qed.

Lemma parse_line_within line self n :
  line_shape line -> within self n ->
  Z.of_nat (n + String.length line) <= Csv.field_size_limit ->
  exists self', Csv.parse_line self line = Ok self' /\
    within self' (n + String.length line).
Proof.
  intros (body & Hbody & [-> | ->]) Hw Hlim; rewrite length_string_of_list in *;
    rewrite parse_line_chars.
  - destruct (parse_chars_plain body self n Hw Hbody Hlim) as (self1 & -> & [_ Hn1]). simpl.
    now apply step_EOL.
  - rewrite length_app in *. simpl in *. rewrite parse_chars_app.
    destruct (parse_chars_plain body self n Hw Hbody) as (self1 & -> & Hw1); [lia|].
    simpl.
    destruct (step_LF self1 _ Hw1) as (self2 & -> & Hn2); [lia|]. simpl.
    apply step_EOL. lia.
Qed.

Lemma sum_lengths_cons (line : string) (lines : list string) :
  sum_list (String.length <$> line :: lines) =
  (String.length line + sum_list (String.length <$> lines))%nat.
Proof. reflexivity. Qed.

Lemma read_rows_within lines : forall self n,
  Forall line_shape lines -> within self n ->
  Z.of_nat (n + sum_list (String.length <$> lines)) <= Csv.field_size_limit ->
  exists rows, Csv.read_rows self lines = Ok rows.
Proof.
  induction lines as [|line lines IH]; intros self n Hlines Hw Hlim; simpl.
  - destruct (Csv.field self), (Csv.state self); now eexists.
  - apply Forall_cons in Hlines as [Hline Hlines]. rewrite sum_lengths_cons in Hlim.
    destruct (parse_line_within line self n Hline Hw) as (self1 & -> & Hw1); [lia|].
    simpl.
    assert (Hnext : exists rows, Csv.read_rows self1 lines = Ok rows).
    { eapply IH; [exact Hlines|exact Hw1|lia]. }
    destruct (Csv.state self1); try exact Hnext.
    destruct (IH Csv.parse_reset 0%nat Hlines) as [rows ->].
    + split; [discriminate|simpl; lia].
    + lia.
    + simpl. now eexists.
Qed.

Lemma split_lines_shape s : forall line,
  Forall (fun c => Csv.is_newline c = false) line -> no_cr_str s ->
  Forall line_shape (split_lines line s).
Proof.
  induction s as [|c s IH]; intros line Hline Hs; simpl.
  - destruct line as [|c0 line]; constructor; [|constructor].
    exists (rev (c0 :: line)). split; [now apply Forall_rev|now left].
  - unfold no_cr_str in Hs. simpl in Hs. apply Forall_cons in Hs as [Hc Hs].
    destruct (Ascii.eqb c Py.LF) eqn:Ec.
    + apply Ascii.eqb_eq in Ec. subst c. constructor.
      * exists (rev line). split; [now apply Forall_rev|now right].
      * apply IH; [constructor|exact Hs].
    + apply IH; [|exact Hs]. constructor; [|exact Hline].
      unfold Csv.is_newline. rewrite Ec. simpl. now apply Ascii.eqb_neq.
Qed.

Lemma split_lines_length s : forall line,
  sum_list (String.length <$> split_lines line s) = (length line + String.length s)%nat.
Proof.
  induction s as [|c s IH]; intros line; simpl.
  - destruct line as [|c0 line]; [reflexivity|].
    rewrite sum_lengths_cons, length_string_of_list, ?length_app, ?length_rev. simpl. lia.
  - destruct (Ascii.eqb c Py.LF).
    + rewrite sum_lengths_cons, IH, length_string_of_list, ?length_app, ?length_rev. simpl. lia.
    + rewrite IH. simpl. lia.
Qed.

Lemma universal_newlines_length s :
  (String.length (universal_newlines s) <= String.length s)%nat.
Proof.
  assert (H : forall n s, (String.length s <= n)%nat ->
                          (String.length (universal_newlines s) <= String.length s)%nat).
  { clear s. induction n as [|n IH]; intros [|c s] Hlen;
      try (simpl; lia); [simpl in Hlen; lia|].
    change (String.length (String c s)) with (S (String.length s)) in *.
    rewrite universal_newlines_eq.
    destruct (Ascii.eqb c Py.CR).
    - destruct s as [|c' s']; [simpl; lia|].
      destruct (Ascii.eqb c' Py.LF).
      + change (String.length (String c' s')) with (S (String.length s')) in *.
        specialize (IH s' ltac:(lia)).
        change (String.length (String Py.LF (universal_newlines s')))
          with (S (String.length (universal_newlines s'))). lia.
      + specialize (IH (String c' s') ltac:(lia)).
        change (String.length (String Py.LF (universal_newlines (String c' s'))))
          with (S (String.length (universal_newlines (String c' s')))). lia.
    - specialize (IH s ltac:(lia)).
      change (String.length (String c (universal_newlines s)))
        with (S (String.length (universal_newlines s))). lia. }
  now apply (H (String.length s)).
Qed.

Lemma sum_list_drop (l : list nat) n : (sum_list (drop n l) <= sum_list l)%nat.
Proof.
  revert n. induction l as [|x l IH]; intros [|n]; simpl; try lia.
  specialize (IH n). lia.
Qed.

(** X7. A file of at most 131072 characters, the field size limit of the
    csv reader, is always read: whatever it holds, [read_csv_file]
    returns a list of records and raises nothing. *)
Theorem small_file_reads (content : string) :
  Z.of_nat (String.length content) <= Csv.field_size_limit ->
  exists records, read_csv_file content = Ok records.
Proof.
  intros Hlen. unfold read_csv_file, Csv.reader.
  set (lines := readlines content).
  destruct (read_rows_within (drop (find_data_start 0 lines) lines) Csv.parse_reset 0)
    as [rows ->].
  - apply Forall_drop. apply split_lines_shape; [constructor|apply universal_newlines_no_cr].
  - split; [discriminate|simpl; lia].
  - rewrite fmap_drop.
    pose proof (sum_list_drop (String.length <$> lines) (find_data_start 0 lines)) as Hd.
    assert (Hs : sum_list (String.length <$> lines) =
                 String.length (universal_newlines content)).
    { unfold lines, readlines. now rewrite split_lines_length. }
    pose proof (universal_newlines_length content). lia.
  - simpl. apply parse_rows_returns.
Qed.

Lemma small_file_reads_witness : exists records, read_csv_file windows_file = Ok records.
Proof. apply small_file_reads. vm_compute. discriminate. Defined.

(** ** Scrubbing: [filter_records] *)

Lemma here_is_here : String.eqb "here" "here" = true.
Proof. reflexivity. Qed.

Lemma filter_records_cons c f m record records :
  filter_records c f m (record :: records) =
  if denied c record then filter_records c f m records
  else if
    match f, m with
    | Some lf, Some mode =>
        if truthy mode then
          if String.eqb mode "here" && negb (is_here lf record) then true
          else if String.eqb mode "not_here" && negb (is_not_here lf record) then true
          else false
        else false
    | _, _ => false
    end
  then filter_records c f m records
  else record :: filter_records c f m records.
Proof. destruct c; reflexivity. Qed.

Lemma filter_records_here c lf record records :
  filter_records c (Some lf) (Some "here") (record :: records) =
  if denied c record then filter_records c (Some lf) (Some "here") records
  else if is_here lf record
       then record :: filter_records c (Some lf) (Some "here") records
       else filter_records c (Some lf) (Some "here") records.
Proof.
  rewrite filter_records_cons. destruct (denied c record); [reflexivity|].
  change (truthy "here") with true. change (String.eqb "here" "here") with true.
  change (String.eqb "here" "not_here") with false. cbv iota.
  now destruct (is_here lf record).
Qed.

Lemma filter_records_not_here c lf record records :
  filter_records c (Some lf) (Some "not_here") (record :: records) =
  if denied c record then filter_records c (Some lf) (Some "not_here") records
  else if is_not_here lf record
       then record :: filter_records c (Some lf) (Some "not_here") records
       else filter_records c (Some lf) (Some "not_here") records.
Proof.
  rewrite filter_records_cons. destruct (denied c record); [reflexivity|].
  change (truthy "not_here") with true. change (String.eqb "not_here" "here") with false.
  change (String.eqb "not_here" "not_here") with true. cbv iota.
  now destruct (is_not_here lf record).
Qed.

Lemma filter_records_no_location c m record records :
  filter_records c None m (record :: records) =
  if denied c record then filter_records c None m records
  else record :: filter_records c None m records.
Proof. rewrite filter_records_cons. now destruct (denied c record), m. Qed.

Lemma is_here_has_fix lf record : is_here lf record = true -> no_fix record = false.
Proof. unfold is_here. now destruct (no_fix record). Qed.

Lemma is_not_here_has_fix lf record : is_not_here lf record = true -> no_fix record = false.
Proof. unfold is_not_here. now destruct (no_fix record). Qed.

(** X8. What a scrub keeps: the records of the output are records of the
    input, in the order of the input; none of them is on the deny list;
    with a geofence, the mode ['here'] keeps only records inside the box
    and the mode ['not_here'] only records outside it, and in both modes
    no record without a fix (latitude and longitude 0) is kept. *)
Theorem filter_records_output (c : option FilterConfig) (cfg : FilterConfig)
    (f : option LocationFilter) (lf : LocationFilter) (m : option string)
    (records : list WiGLERecord) :
  sublist (filter_records c f m records) records /\
  Forall (fun r => should_filter cfg r = false) (filter_records (Some cfg) f m records) /\
  Forall (fun r => is_here lf r = true /\ no_fix r = false)
    (filter_records c (Some lf) (Some "here") records) /\
  Forall (fun r => is_here lf r = false /\ no_fix r = false)
    (filter_records c (Some lf) (Some "not_here") records).
Proof.
  repeat split.
  - induction records as [|r records IH]; [constructor|].
    rewrite filter_records_cons.
    repeat match goal with
           | |- context [if ?b then _ else _] => destruct b
           | |- context [match ?o with Some _ => _ | None => _ end] => destruct o
           end; (now apply sublist_cons) || (now apply sublist_skip).
  - induction records as [|r records IH]; [constructor|].
    rewrite filter_records_cons. simpl denied.
    destruct (should_filter cfg r) eqn:E; [exact IH|].
    match goal with |- context [if ?b then _ else _] => destruct b end;
      [exact IH|now constructor].
  - induction records as [|r records IH]; [constructor|].
    rewrite filter_records_here.
    destruct (denied c r); [exact IH|].
    destruct (is_here lf r) eqn:E; [|exact IH].
    constructor; [|exact IH]. split; [exact E|]. eapply is_here_has_fix, E.
  - induction records as [|r records IH]; [constructor|].
    rewrite filter_records_not_here.
    destruct (denied c r); [exact IH|].
    destruct (is_not_here lf r) eqn:E; [|exact IH].
    constructor; [|exact IH].
    pose proof (is_not_here_has_fix _ _ E) as Hfix. split; [|exact Hfix].
    unfold is_not_here in E. rewrite Hfix in E. now destruct (is_here lf r).
Qed.

(** X9. With a geofence, the two modes split what the deny list lets
    through: each such record goes to the ['here'] output, to the
    ['not_here'] output, or, when it has no fix, to neither, and never to
    two of them. *)
Theorem filter_records_partition (c : option FilterConfig) (lf : LocationFilter)
    (records : list WiGLERecord) :
  filter_records c None None records ≡ₚ
    (filter_records c (Some lf) (Some "here") records ++
     filter_records c (Some lf) (Some "not_here") records ++
     filter (fun r => no_fix r = true) (filter_records c None None records))%list.
Proof.
  induction records as [|r records IH]; [reflexivity|].
  rewrite filter_records_no_location, filter_records_here, filter_records_not_here.
  destruct (denied c r); [exact IH|].
  unfold is_not_here. destruct (no_fix r) eqn:Hfix.
  - assert (Hh : is_here lf r = false) by (unfold is_here; now rewrite Hfix).
    rewrite Hh, filter_cons_True by exact Hfix.
    rewrite IH at 1. rewrite !Permutation_middle. reflexivity.
  - rewrite filter_cons_False by congruence.
    destruct (is_here lf r); simpl negb; cbv iota.
    + simpl. now rewrite IH at 1.
    + rewrite IH at 1. now rewrite Permutation_middle.
Qed.

(** X10. The location mode does nothing without a geofence, and a
    geofence does nothing without one of the two modes: then
    [filter_records] applies the deny list alone. So [--here] without
    [--lat] and [--lon] keeps the records of every place. *)
Theorem filter_records_mode_ignored (c : option FilterConfig)
    (records : list WiGLERecord) :
  (forall m, filter_records c None m records = filter_records c None None records) /\
  (forall lf m, m <> Some "here" -> m <> Some "not_here" ->
     filter_records c (Some lf) m records = filter_records c None None records).
Proof.
  split.
  - intros m. induction records as [|r records IH]; [reflexivity|].
    rewrite !filter_records_no_location, IH. reflexivity.
  - intros lf m Hh Hn. induction records as [|r records IH]; [reflexivity|].
    rewrite filter_records_no_location, filter_records_cons, IH.
    destruct (denied c r); [reflexivity|].
    destruct m as [mode|]; [|reflexivity].
    destruct (truthy mode); [|reflexivity].
    destruct (String.eqb mode "here") eqn:E1.
    { apply String.eqb_eq in E1. congruence. }
    destruct (String.eqb mode "not_here") eqn:E2.
    { apply String.eqb_eq in E2. congruence. }
    reflexivity.
Qed.

Lemma filter_records_mode_ignored_witness :
  filter_records None None (Some "here") scrub_input = filter_records None None None scrub_input /\
  filter_records None (Some home_filter) (Some "Here") scrub_input =
    filter_records None None None scrub_input.
Proof.
  split.
  - apply (proj1 (filter_records_mode_ignored None scrub_input)).
  - apply (proj2 (filter_records_mode_ignored None scrub_input)); discriminate.
Defined.

(** X11. Scrubbing twice is scrubbing once: [filter_records] applied to
    its own output returns it unchanged; and scrubbing two lists one
    after the other gives the scrub of the two lists joined. *)
Theorem filter_records_idempotent (c : option FilterConfig) (f : option LocationFilter)
    (m : option string) (records records' : list WiGLERecord) :
  filter_records c f m (filter_records c f m records) = filter_records c f m records /\
  filter_records c f m (records ++ records')%list =
    (filter_records c f m records ++ filter_records c f m records')%list.
Proof.
  split.
  - induction records as [|r records IH]; [reflexivity|].
    rewrite filter_records_cons.
    destruct (denied c r) eqn:Ed; [exact IH|].
    match goal with |- context [if ?b then _ else _] => destruct b eqn:Eo end;
      [exact IH|].
    rewrite filter_records_cons, Ed, Eo, IH. reflexivity.
  - induction records as [|r records IH]; [reflexivity|].
    change ((r :: records) ++ records')%list with (r :: (records ++ records'))%list.
    rewrite !filter_records_cons, IH.
    destruct (denied c r); [reflexivity|].
    match goal with |- context [if ?b then _ else _] => destruct b end; reflexivity.
Qed.

(** ** Creep detector: many records *)

Lemma add_record_inv self record self' :
  CreepDetector.add_record self record = Ok self' ->
  (no_fix record = true /\ self' = self) \/
  (no_fix record = false /\
   exists loc, CreepDetector.location self record = Ok loc /\
     self' = CreepDetector.add_location self (mac record) loc).
Proof.
  unfold CreepDetector.add_record. destruct (no_fix record).
  - intros [= <-]. now left.
  - destruct (CreepDetector.location self record) as [loc|]; simpl; [|discriminate].
    intros [= <-]. right. split; [reflexivity|]. now exists loc.
Qed.

Lemma location_same_fudge self self' record :
  CreepDetector.fudge_factor self = CreepDetector.fudge_factor self' ->
  CreepDetector.location self record = CreepDetector.location self' record.
Proof.
  intros H. unfold CreepDetector.location, CreepDetector.rounded_lat,
    CreepDetector.rounded_lon. now rewrite H.
Qed.

Lemma add_record_fudge self record self' :
  CreepDetector.add_record self record = Ok self' ->
  CreepDetector.fudge_factor self' = CreepDetector.fudge_factor self.
Proof.
  intros H. apply add_record_inv in H as [[_ ->] | (_ & loc & _ & ->)]; reflexivity.
Qed.

Lemma fingerprints_add_location self m loc m' :
  fingerprints (CreepDetector.add_location self m loc) m' =
  if decide (m = m') then {[loc]} ∪ fingerprints self m' else fingerprints self m'.
Proof.
  unfold fingerprints. destruct (decide (m = m')) as [<-|Hne].
  - now rewrite add_location_lookup.
  - now rewrite add_location_lookup_ne.
Qed.

Lemma fingerprints_add_records (records : list WiGLERecord) :
  forall (self self' : CreepDetector.t),
  CreepDetector.add_records self records = Ok self' ->
  CreepDetector.fudge_factor self' = CreepDetector.fudge_factor self /\
  forall m loc,
    loc ∈ fingerprints self' m <->
    loc ∈ fingerprints self m \/
    exists record, record ∈ records /\ no_fix record = false /\ mac record = m /\
      CreepDetector.location self record = Ok loc.
Proof.
  induction records as [|r records IH]; intros self self' H; simpl in H.
  - injection H as <-. split; [reflexivity|]. intros m loc. split; [now left|].
    intros [H|(record & Hin & _)]; [exact H|]. now apply elem_of_nil in Hin.
  - destruct (CreepDetector.add_record self r) as [self1|] eqn:H1; simpl in H; [|discriminate].
    destruct (IH _ _ H) as [Hf IH']. pose proof (add_record_fudge _ _ _ H1) as Hf1.
    split; [congruence|]. intros m loc. rewrite IH'.
    assert (Hloc : forall record,
               CreepDetector.location self1 record = CreepDetector.location self record).
    { intros record. now apply location_same_fudge. }
    setoid_rewrite Hloc. setoid_rewrite elem_of_cons.
    apply add_record_inv in H1 as [[Hfix ->] | (Hfix & loc1 & Hl1 & ->)].
    + split.
      * intros [H'|(record & Hin & H')]; [now left|]. right. exists record. tauto.
      * intros [H'|(record & [->|Hin] & Hfix' & H')]; [now left|congruence|].
        right. exists record. tauto.
    + rewrite fingerprints_add_location. split.
      * intros [H'|(record & Hin & H')]; [|right; exists record; tauto].
        destruct (decide (mac r = m)) as [Hm|Hm]; [|now left].
        apply elem_of_union in H' as [H'|H']; [|now left].
        apply elem_of_singleton in H' as ->. right. exists r. tauto.
      * intros [H'|(record & [->|Hin] & Hfix' & Hm & Hl)].
        -- left. destruct (decide (mac r = m)); [apply elem_of_union; now right|exact H'].
        -- left. rewrite decide_True by exact Hm. apply elem_of_union. left.
           apply elem_of_singleton. congruence.
        -- right. exists record. tauto.
Qed.

(** X12. The fingerprints after a run of records: the set of a MAC holds
    what it held before and the fingerprint of every record of the run
    that has this MAC and a fix, and nothing else; the fudge factor is
    unchanged. *)
Theorem add_records_fingerprints (self self' : CreepDetector.t)
    (records : list WiGLERecord) :
  CreepDetector.add_records self records = Ok self' ->
  CreepDetector.fudge_factor self' = CreepDetector.fudge_factor self /\
  forall m loc,
    loc ∈ fingerprints self' m <->
    loc ∈ fingerprints self m \/
    exists record, record ∈ records /\ no_fix record = false /\ mac record = m /\
      CreepDetector.location self record = Ok loc.
Proof. apply fingerprints_add_records. Qed.

Lemma add_records_fingerprints_witness :
  "40.00 -74.00" ∈ fingerprints
    (CreepDetector.add_location fresh_detector (mac west_record) "40.00 -74.00")
    (mac west_record) <->
  "40.00 -74.00" ∈ fingerprints fresh_detector (mac west_record) \/
  exists record, record ∈ [west_record] /\ no_fix record = false /\
    mac record = mac west_record /\
    CreepDetector.location fresh_detector record = Ok "40.00 -74.00".
Proof.
  assert (H : CreepDetector.add_records fresh_detector [west_record] =
              Ok (CreepDetector.add_location fresh_detector (mac west_record)
                    "40.00 -74.00")).
  { vm_compute. reflexivity. }
  exact (proj2 (add_records_fingerprints fresh_detector _ [west_record] H)
           (mac west_record) "40.00 -74.00").
Defined.

Lemma add_location_comm self m1 l1 m2 l2 :
  CreepDetector.add_location (CreepDetector.add_location self m1 l1) m2 l2 =
  CreepDetector.add_location (CreepDetector.add_location self m2 l2) m1 l1.
Proof.
  unfold CreepDetector.add_location. simpl. f_equal.
  destruct (decide (m1 = m2)) as [<-|Hne].
  - rewrite !lookup_insert_eq, !insert_insert_eq. simpl. f_equal.
    rewrite !(assoc_L (∪)). f_equal. apply (comm_L (∪)).
  - rewrite !lookup_insert_ne by congruence. apply insert_insert_ne. congruence.
Qed.

Lemma add_record_comm self x y :
  (s ← CreepDetector.add_record self x; CreepDetector.add_record s y) =
  (s ← CreepDetector.add_record self y; CreepDetector.add_record s x) \/
  exists e e',
    (s ← CreepDetector.add_record self x; CreepDetector.add_record s y) = Raise e /\
    (s ← CreepDetector.add_record self y; CreepDetector.add_record s x) = Raise e'.
Proof.
  unfold CreepDetector.add_record.
  destruct (no_fix x) eqn:Hx, (no_fix y) eqn:Hy; simpl; rewrite ?Hx, ?Hy; auto.
  - left. now destruct (CreepDetector.location self y).
  - left. now destruct (CreepDetector.location self x).
  - destruct (CreepDetector.location self x) as [lx|ex] eqn:Ex,
             (CreepDetector.location self y) as [ly|ey] eqn:Ey; simpl;
      rewrite ?Hx, ?Hy, ?location_add_location, ?Ex, ?Ey; simpl.
    + left. now rewrite add_location_comm.
    + right. eauto.
    + right. eauto.
    + right. eauto.
Qed.

Lemma add_records_perm records records' :
  records ≡ₚ records' ->
  forall self self', CreepDetector.add_records self records = Ok self' ->
                     CreepDetector.add_records self records' = Ok self'.
Proof.
  induction 1 as [|x l l' _ IH|x y l|l l' l'' _ IH1 _ IH2]; intros self self' H.
  - exact H.
  - simpl in *. destruct (CreepDetector.add_record self x); simpl in *; [auto|discriminate].
  - change (CreepDetector.add_records self (y :: x :: l))
      with (s ← CreepDetector.add_record self y;
            s' ← CreepDetector.add_record s x; CreepDetector.add_records s' l) in H.
    change (CreepDetector.add_records self (x :: y :: l))
      with (s ← CreepDetector.add_record self x;
            s' ← CreepDetector.add_record s y; CreepDetector.add_records s' l).
    destruct (add_record_comm self x y) as [Heq|(e & e' & Hxy & Hyx)].
    + destruct (CreepDetector.add_record self x) as [sx|]; simpl in *;
        destruct (CreepDetector.add_record self y) as [sy|]; simpl in *.
      * rewrite Heq. exact H.
      * discriminate.
      * rewrite <- Heq in H. discriminate.
      * discriminate.
    + destruct (CreepDetector.add_record self y) as [sy|]; simpl in *; [|discriminate].
      rewrite Hyx in H. discriminate.
  - auto.
Qed.

(** X13. The order of the records does not matter to the detector: when
    it takes a list of records without raising, it takes every
    rearrangement of the list, and ends in the same state. So the creep
    report does not depend on the order in which the files are read. *)
Theorem add_records_permutation (self self' : CreepDetector.t)
    (records records' : list WiGLERecord) :
  records ≡ₚ records' ->
  CreepDetector.add_records self records = Ok self' ->
  CreepDetector.add_records self records' = Ok self' /\
  forall min_locations,
    (s ← CreepDetector.add_records self records';
     Ok (CreepDetector.get_multi_location_devices s min_locations)) =
    Ok (CreepDetector.get_multi_location_devices self' min_locations).
Proof.
  intros Hp H. pose proof (add_records_perm _ _ Hp _ _ H) as H'.
  split; [exact H'|]. intros n. now rewrite H'.
Qed.

Lemma add_records_permutation_witness :
  CreepDetector.add_records fresh_detector [west_record_later; west_record] =
  CreepDetector.add_records fresh_detector [west_record; west_record_later].
Proof.
  assert (H : exists s, CreepDetector.add_records fresh_detector
                          [west_record; west_record_later] = Ok s).
  { eexists. vm_compute. reflexivity. }
  destruct H as [s H]. rewrite H.
  apply (add_records_permutation fresh_detector s [west_record; west_record_later]);
    [apply perm_swap|exact H].
Defined.

(** ** Creep detector: the threshold *)

Lemma collect_filter items n m :
  n <= m ->
  CreepDetector.collect items m =
  filter (fun x => m <= x.1) (CreepDetector.collect items n).
Proof.
  intros Hnm. induction items as [|[k locs] items IH]; [reflexivity|].
  cbn [CreepDetector.collect].
  destruct (Z.of_nat (size locs) >=? m) eqn:Em, (Z.of_nat (size locs) >=? n) eqn:En;
    rewrite Z.geb_leb in Em, En;
    [apply Z.leb_le in Em, En | apply Z.leb_le in Em; apply Z.leb_gt in En; lia
    | apply Z.leb_gt in Em; apply Z.leb_le in En | apply Z.leb_gt in Em, En].
  - rewrite filter_cons_True by exact Em. now rewrite IH.
  - rewrite filter_cons_False by (simpl; lia). exact IH.
  - exact IH.
Qed.

Lemma StronglySorted_filter {A} (R : relation A) (P : A -> Prop)
    `{!forall x, Decision (P x)} (l : list A) :
  StronglySorted R l -> StronglySorted R (filter P l).
Proof.
  induction 1 as [|x l Hl IH Hx]; [constructor|].
  destruct (decide (P x)).
  - rewrite filter_cons_True by assumption. constructor; [exact IH|].
    rewrite Forall_forall in *. intros y Hy. apply list_elem_of_filter in Hy as [_ Hy]. auto.
  - now rewrite filter_cons_False by assumption.
Qed.

(** X14. Raising the threshold only cuts the ranking: the devices listed
    for [min_locations = m] are those listed for a smaller threshold
    whose count is at least [m], in the same order. *)
Theorem threshold_cuts_ranking (self : CreepDetector.t) (n m : Z) :
  n <= m ->
  CreepDetector.get_multi_location_devices self m =
  filter (fun x => m <= x.1) (CreepDetector.get_multi_location_devices self n).
Proof.
  intros Hnm. symmetry. apply creep_ranking_unique.
  - rewrite (collect_filter _ n m Hnm).
    unfold CreepDetector.get_multi_location_devices, CreepDetector.sorted_reverse.
    now rewrite merge_sort_Permutation.
  - apply StronglySorted_Sorted, StronglySorted_filter.
    unfold CreepDetector.get_multi_location_devices, CreepDetector.sorted_reverse.
    apply StronglySorted_merge_sort; apply _.
Qed.

Lemma threshold_cuts_ranking_witness :
  CreepDetector.get_multi_location_devices
    (CreepDetector.add_location fresh_detector (mac west_record) "40.00 -74.00") 2 =
  filter (fun x => 2 <= x.1)
    (CreepDetector.get_multi_location_devices
       (CreepDetector.add_location fresh_detector (mac west_record) "40.00 -74.00") 1).
Proof. apply threshold_cuts_ranking. lia. Defined.

(** ** Creep detector: coordinates that are not finite *)

Lemma is_finite_mul_l x y : Py.is_finite x = false -> Py.is_finite (x * y) = false.
Proof.
  unfold Py.is_finite. rewrite mul_spec. unfold SF64mul, SFmul.
  destruct (Prim2SF x), (Prim2SF y); try discriminate; reflexivity.
Qed.

Lemma is_finite_add_l x y : Py.is_finite x = false -> Py.is_finite (x + y) = false.
Proof.
  unfold Py.is_finite. rewrite add_spec. unfold SF64add, SFadd.
  destruct (Prim2SF x) as [| [] | |], (Prim2SF y) as [| [] | |];
    try discriminate; reflexivity.
Qed.

Lemma is_finite_sub_l x y : Py.is_finite x = false -> Py.is_finite (x - y) = false.
Proof.
  unfold Py.is_finite. rewrite sub_spec. unfold SF64sub, SFsub.
  destruct (Prim2SF x) as [| [] | |], (Prim2SF y) as [| [] | |];
    try discriminate; reflexivity.
Qed.

Lemma int_of_float_not_finite x :
  Py.is_finite x = false -> exists e, Py.int_of_float x = Raise e.
Proof.
  unfold Py.is_finite, Py.int_of_float.
  destruct (Prim2SF x); try discriminate; eauto.
Qed.

Lemma not_finite_not_zero x : Py.is_finite x = false -> (x =? 0)%float = false.
Proof.
  unfold Py.is_finite. rewrite FloatAxioms.eqb_spec. unfold SFeqb, SFcompare.
  change (Prim2SF 0) with (S754_zero false).
  destruct (Prim2SF x) as [| [] | |]; try discriminate; reflexivity.
Qed.

(** X15. A record with a latitude or a longitude that is not finite (an
    infinity or a NaN, which [from_csv_row] accepts from the texts [inf]
    and [nan]) makes [add_record] raise, whatever the fudge factor: the
    conversion [int()] of the scaled coordinate fails. *)
Theorem add_record_not_finite (self : CreepDetector.t) (record : WiGLERecord) :
  Py.is_finite (latitude record) = false \/ Py.is_finite (longitude record) = false ->
  exists e, CreepDetector.add_record self record = Raise e.
Proof.
  intros H. unfold CreepDetector.add_record.
  assert (Hfix : no_fix record = false).
  { unfold no_fix. destruct H as [H|H]; apply not_finite_not_zero in H; rewrite H;
      [reflexivity|apply andb_false_r]. }
  rewrite Hfix. unfold CreepDetector.location, CreepDetector.rounded_lat,
    CreepDetector.rounded_lon.
  destruct (Py.float_of_int (CreepDetector.fudge_factor self)) as [F|e]; simpl; [|eauto].
  destruct (Py.int_of_float (latitude record * F + 0.5)) as [i|e] eqn:Ei; simpl; [|eauto].
  destruct (Py.int_truediv i (CreepDetector.fudge_factor self)) as [lat|e]; simpl; [|eauto].
  destruct H as [H|H].
  - destruct (int_of_float_not_finite (latitude record * F + 0.5)) as [e He].
    { apply is_finite_add_l, is_finite_mul_l, H. }
    congruence.
  - destruct (int_of_float_not_finite (longitude record * F - 0.5)) as [e He].
    { apply is_finite_sub_l, is_finite_mul_l, H. }
    rewrite He. simpl. eauto.
Qed.

Lemma add_record_not_finite_witness :
  from_csv_row nan_row = Ok (Some nan_record) /\
  exists e, CreepDetector.add_record fresh_detector nan_record = Raise e.
Proof.
  split; [vm_compute; reflexivity|].
  apply add_record_not_finite. left. vm_compute. reflexivity.
Defined.

(** ** The creep report of [main] *)

Lemma sample_records_take m records : forall sample_count,
  sample_records m sample_count records =
  take (Z.to_nat (3 - sample_count)) (filter (fun r => mac r = m) records).
Proof.
  induction records as [|r records IH]; intros k; cbn [sample_records].
  - now rewrite filter_nil, take_nil.
  - destruct (String.eqb (mac r) m) eqn:Em.
    + apply String.eqb_eq in Em. rewrite filter_cons_True by exact Em.
      destruct (k <? 3) eqn:Ek; simpl.
      * apply Z.ltb_lt in Ek. rewrite IH.
        replace (Z.to_nat (3 - k)) with (S (Z.to_nat (3 - (k + 1)))) by lia.
        reflexivity.
      * apply Z.ltb_ge in Ek. rewrite IH.
        replace (Z.to_nat (3 - k)) with 0%nat by lia. now rewrite !take_0.
    + apply String.eqb_neq in Em. rewrite filter_cons_False by exact Em.
      simpl. apply IH.
Qed.

(** X16. The sample records shown for a device are the first three
    records with its MAC, in the order of the records, or all of them
    when there are fewer; records without a fix are shown as well. *)
Theorem sample_records_first_three (m : string) (all_records : list WiGLERecord) :
  sample_records m 0 all_records = take 3 (filter (fun r => mac r = m) all_records).
Proof. apply sample_records_take. Qed.

Lemma elem_of_ranking self min_locations c m :
  (c, m) ∈ CreepDetector.get_multi_location_devices self min_locations ->
  Z.of_nat (size (fingerprints self m)) = c /\ min_locations <= c.
Proof.
  unfold CreepDetector.get_multi_location_devices, CreepDetector.sorted_reverse.
  rewrite merge_sort_Permutation, elem_of_collect.
  intros (l & H & -> & Hc). apply elem_of_map_to_list in H.
  unfold fingerprints. rewrite H. simpl. now split.
Qed.

Lemma two_elements (X : gset string) :
  (2 <= size X)%nat -> exists a b, a <> b /\ a ∈ X /\ b ∈ X.
Proof.
  intros H. destruct (set_choose_L X) as [a Ha].
  { intros ->. rewrite size_empty in H. lia. }
  destruct (set_choose_L (X ∖ {[a]})) as [b Hb].
  { intros He. assert (Hs : size (X ∖ {[a]}) = 0%nat) by (rewrite He; apply size_empty).
    rewrite size_difference in Hs by (now apply singleton_subseteq_l).
    rewrite size_singleton in Hs. lia. }
  apply elem_of_difference in Hb as [Hb Hne].
  exists a, b. split; [|now split]. intros ->. apply Hne. now apply elem_of_singleton.
Qed.

Lemma two_in_list {A} (l : list A) a b :
  a <> b -> a ∈ l -> b ∈ l -> (2 <= length l)%nat.
Proof.
  intros Hne Ha Hb. destruct l as [|x [|y l]]; simpl; try lia.
  - now apply elem_of_nil in Ha.
  - apply list_elem_of_singleton in Ha, Hb. congruence.
Qed.

(** X17. The creep report lists at most ten devices, each seen at two
    places or more; every device that is left out has as many places as
    any listed one, or fewer; and each listed device is shown with two
    or three sample records. *)
Theorem creep_report_entries (all_records : list WiGLERecord) (report : list (Z * string)) :
  creep_report all_records = Ok report ->
  (length report <= 10)%nat /\
  exists detector,
    CreepDetector.add_records
      (CreepDetector.init CreepDetector.default_fudge_factor) all_records = Ok detector /\
    (forall x y, x ∈ report ->
       y ∈ CreepDetector.get_multi_location_devices detector 2 -> y ∉ report ->
       ranks_before x y) /\
    (forall c m, (c, m) ∈ report ->
       2 <= c /\ c = Z.of_nat (size (fingerprints detector m)) /\
       (2 <= length (sample_records m 0 all_records) <= 3)%nat).
Proof.
  unfold creep_report. intros H.
  destruct (CreepDetector.add_records
              (CreepDetector.init CreepDetector.default_fudge_factor) all_records)
    as [d|] eqn:Hd; simpl in H; [|discriminate].
  injection H as <-. split; [rewrite length_take; lia|].
  exists d. split; [reflexivity|]. split.
  - intros x y Hx Hy Hny.
    set (l := CreepDetector.get_multi_location_devices d 2) in *.
    assert (Hs : StronglySorted CreepDetector.descending (take 10 l ++ drop 10 l)).
    { rewrite take_drop. apply StronglySorted_merge_sort; apply _. }
    assert (Hy' : y ∈ drop 10 l).
    { rewrite <- (take_drop 10 l) in Hy. apply elem_of_app in Hy as [Hy|Hy];
        [contradiction|exact Hy]. }
    pose proof (StronglySorted_app_1_elem_of _ _ _ _ _ Hs Hx Hy') as Hxy.
    unfold CreepDetector.descending in Hxy. apply tuple_leb_spec in Hxy.
    exact Hxy.
  - intros c m Hin. apply elem_of_take in Hin as (i & Hin & _).
    apply list_elem_of_lookup_2 in Hin.
    apply elem_of_ranking in Hin as [Hc H2]. split; [exact H2|]. split; [now symmetry|].
    rewrite sample_records_take, length_take. change (Z.to_nat (3 - 0)) with 3%nat.
    split; [|lia].
    destruct (two_elements (fingerprints d m)) as (a & b & Hne & Ha & Hb); [lia|].
    destruct (fingerprints_add_records _ _ _ Hd) as [_ Hchar].
    apply Hchar in Ha as [Ha|(ra & Hra & _ & Hma & Hla)]; [now apply elem_of_empty in Ha|].
    apply Hchar in Hb as [Hb|(rb & Hrb & _ & Hmb & Hlb)]; [now apply elem_of_empty in Hb|].
    assert (Hlen : (2 <= length (filter (fun r => mac r = m) all_records))%nat).
    { apply (two_in_list _ ra rb).
      - intros ->. congruence.
      - now apply list_elem_of_filter.
      - now apply list_elem_of_filter. }
    lia.
Qed.

Lemma creep_report_entries_witness :
  creep_report [west_record; west_record_later] = Ok [(2, "AA:BB:CC:DD:EE:02")] /\
  (length [(2, "AA:BB:CC:DD:EE:02")] <= 10)%nat.
Proof.
  assert (H : creep_report [west_record; west_record_later] = Ok [(2, "AA:BB:CC:DD:EE:02")]).
  { vm_compute. reflexivity. }
  split; [exact H|].
  exact (proj1 (creep_report_entries [west_record; west_record_later] _ H)).
Defined.

(** ** Encryption aggregator: the total *)

Lemma foldr_add_perm (l1 l2 : list Z) :
  l1 ≡ₚ l2 -> foldr Z.add 0 l1 = foldr Z.add 0 l2.
Proof. induction 1; simpl; lia. Qed.

Lemma sum_values_insert_fresh (counter : gmap string Z) k v :
  counter !! k = None ->
  EncryptionAnalyzer.sum_values (<[k := v]> counter) =
  v + EncryptionAnalyzer.sum_values counter.
Proof.
  intros H. unfold EncryptionAnalyzer.sum_values.
  rewrite (foldr_add_perm _ (snd <$> (k, v) :: map_to_list counter)).
  - reflexivity.
  - apply fmap_Permutation. now apply map_to_list_insert.
Qed.

Lemma sum_values_insert (counter : gmap string Z) k v :
  EncryptionAnalyzer.sum_values (<[k := v]> counter) =
  v + EncryptionAnalyzer.sum_values counter - EncryptionAnalyzer.counter_get counter k.
Proof.
  unfold EncryptionAnalyzer.counter_get. destruct (counter !! k) as [c|] eqn:Hk; simpl.
  - rewrite <- (insert_delete_eq counter k v).
    rewrite <- (insert_delete_id counter k c Hk) at 2.
    rewrite !sum_values_insert_fresh by apply lookup_delete_eq. lia.
  - rewrite sum_values_insert_fresh by exact Hk. lia.
Qed.

Lemma add_record_total self record :
  EncryptionAnalyzer.sum_values (EncryptionAnalyzer.encryption_counts self) =
    Z.of_nat (size (EncryptionAnalyzer.unique_networks self)) ->
  EncryptionAnalyzer.sum_values
    (EncryptionAnalyzer.encryption_counts (EncryptionAnalyzer.add_record self record)) =
  Z.of_nat (size (EncryptionAnalyzer.unique_networks
                    (EncryptionAnalyzer.add_record self record))).
Proof.
  intros H. unfold EncryptionAnalyzer.add_record.
  destruct (decide (EncryptionAnalyzer.network_id record
                      ∈ EncryptionAnalyzer.unique_networks self)) as [Hin|Hin];
    [exact H|]. simpl.
  rewrite sum_values_insert, H, size_union.
  - rewrite size_singleton. lia.
  - intros x Hx Hx'. apply elem_of_singleton in Hx as ->. contradiction.
Qed.

Lemma foldl_add_record records : forall self,
  EncryptionAnalyzer.unique_networks (foldl EncryptionAnalyzer.add_record self records) =
    list_to_set (EncryptionAnalyzer.network_id <$> records)
      ∪ EncryptionAnalyzer.unique_networks self /\
  (EncryptionAnalyzer.sum_values (EncryptionAnalyzer.encryption_counts self) =
     Z.of_nat (size (EncryptionAnalyzer.unique_networks self)) ->
   EncryptionAnalyzer.sum_values
     (EncryptionAnalyzer.encryption_counts
        (foldl EncryptionAnalyzer.add_record self records)) =
   Z.of_nat (size (EncryptionAnalyzer.unique_networks
                     (foldl EncryptionAnalyzer.add_record self records)))).
Proof.
  induction records as [|r records IH]; intros self; simpl.
  - split; [now rewrite union_empty_l_L|auto].
  - destruct (IH (EncryptionAnalyzer.add_record self r)) as [IH1 IH2]. split.
    + rewrite IH1. unfold EncryptionAnalyzer.add_record.
      destruct (decide (EncryptionAnalyzer.network_id r
                          ∈ EncryptionAnalyzer.unique_networks self)) as [Hin|Hin];
        cbn [EncryptionAnalyzer.unique_networks fmap list_fmap list_to_set];
        apply set_eq; intros x;
        rewrite !elem_of_union, ?elem_of_singleton; [|tauto].
      split; [tauto|]. intros [[->|?]|?]; tauto.
    + intros H. apply IH2. now apply add_record_total.
Qed.

(** X18. The total of the encryption statistics is the number of
    different networks: after the analyzer has taken a list of records,
    its set of networks holds the identifiers [mac ssid] of the records,
    and the counts of all the encryption types add up to the size of
    that set, however many times each network was seen. *)
Theorem total_is_network_count (all_records : list WiGLERecord) :
  EncryptionAnalyzer.unique_networks (analyze all_records) =
    list_to_set (EncryptionAnalyzer.network_id <$> all_records) /\
  EncryptionAnalyzer.sum_values (EncryptionAnalyzer.encryption_counts (analyze all_records)) =
    Z.of_nat (size (list_to_set (EncryptionAnalyzer.network_id <$> all_records)
                      : gset string)).
Proof.
  unfold analyze.
  destruct (foldl_add_record all_records EncryptionAnalyzer.init) as [H1 H2].
  simpl in H1. rewrite union_empty_r_L in H1. split; [exact H1|].
  rewrite <- H1. apply H2. reflexivity.
Qed.

Lemma append_cons c s t : String c s +:+ t = String c (s +:+ t).
Proof. reflexivity. Qed.

Lemma append_empty t : "" +:+ t = t.
Proof. reflexivity. Qed.

Lemma network_id_split s1 : forall s2 t1 t2,
  no_space s1 -> no_space s2 ->
  s1 +:+ " " +:+ t1 = s2 +:+ " " +:+ t2 -> s1 = s2 /\ t1 = t2.
Proof.
  unfold no_space.
  induction s1 as [|c s1 IH]; intros [|d s2] t1 t2 H1 H2 H;
    rewrite ?append_cons, ?append_empty in H.
  - now injection H as ->.
  - injection H as <- _. simpl in H2. apply Forall_cons in H2 as [H2 _]. congruence.
  - injection H as -> _. simpl in H1. apply Forall_cons in H1 as [H1 _]. congruence.
  - injection H as <- H. simpl in H1, H2.
    apply Forall_cons in H1 as [_ H1]. apply Forall_cons in H2 as [_ H2].
    destruct (IH s2 t1 t2 H1 H2 H) as [-> ->]. now split.
Qed.

(** X19. The identifier [mac ssid] tells networks apart as long as the
    MACs hold no space: two records with the same identifier then have
    the same MAC and the same SSID, so the analyzer never merges two
    different networks. *)
Theorem network_id_injective (record record' : WiGLERecord) :
  no_space (mac record) -> no_space (mac record') ->
  EncryptionAnalyzer.network_id record = EncryptionAnalyzer.network_id record' ->
  mac record = mac record' /\ ssid record = ssid record'.
Proof. unfold EncryptionAnalyzer.network_id. apply network_id_split. Qed.

Lemma network_id_injective_witness :
  mac home_record = mac home_record /\ ssid home_record = ssid home_record.
Proof.
  apply (network_id_injective home_record home_record);
    [repeat constructor; discriminate | repeat constructor; discriminate | reflexivity].
Defined.

(** ** Loading a configuration *)

Lemma compile_patterns_omap re_compile sources : forall acc,
  compile_patterns re_compile acc sources = (acc ++ omap re_compile sources)%list.
Proof.
  induction sources as [|p sources IH]; intros acc; simpl.
  - now rewrite app_nil_r.
  - destruct (re_compile p); rewrite IH; [now rewrite <- app_assoc|reflexivity].
Qed.

Lemma any_pattern_app patterns patterns' record :
  any_pattern (patterns ++ patterns')%list record =
  any_pattern patterns record || any_pattern patterns' record.
Proof.
  induction patterns as [|p patterns IH]; simpl; [reflexivity|].
  now destruct (search p (ssid record) || search p (mac record)).
Qed.

(** X20. Loading a configuration replaces the blocked MACs and SSIDs by
    those of the file, and adds the patterns of the file that compile
    after the patterns already there, in the order of the file; a
    pattern that does not compile is left out. Loading the same file
    twice doubles the patterns but filters the same records. *)
Theorem load_config_contents (re_compile : string -> option Pattern)
    (self : FilterConfig) (config : ConfigDocument) :
  blocked_macs (load_config re_compile self config) =
    list_to_set (doc_blocked_macs config) /\
  blocked_ssids (load_config re_compile self config) =
    list_to_set (doc_blocked_ssids config) /\
  blocked_patterns (load_config re_compile self config) =
    (blocked_patterns self ++ omap re_compile (doc_blocked_patterns config))%list /\
  forall record,
    should_filter (load_config re_compile (load_config re_compile self config) config) record =
    should_filter (load_config re_compile self config) record.
Proof.
  unfold load_config. simpl. rewrite !compile_patterns_omap.
  repeat split. intros record. unfold should_filter. simpl.
  rewrite !any_pattern_app.
  destruct (any_pattern (blocked_patterns self) record),
    (any_pattern (omap re_compile (doc_blocked_patterns config)) record); reflexivity.
Qed.

(** ** Geofence filter: coordinates that are not numbers *)

Lemma is_nan_spec x : is_nan x = true -> Prim2SF x = S754_nan.
Proof.
  unfold is_nan. rewrite FloatAxioms.eqb_spec. unfold SFeqb, SFcompare.
  destruct (Prim2SF x) as [s|s| |s m e]; try reflexivity.
  - discriminate.
  - destruct s; discriminate.
  - rewrite Z.compare_refl, Pos.compare_cont_refl. destruct s; discriminate.
Qed.

Lemma nan_leb_r x y : is_nan y = true -> (x <=? y)%float = false.
Proof.
  intros H. rewrite FloatAxioms.leb_spec, (is_nan_spec _ H).
  unfold SFleb, SFcompare. now destruct (Prim2SF x).
Qed.

Lemma nan_leb_l x y : is_nan x = true -> (x <=? y)%float = false.
Proof.
  intros H. rewrite FloatAxioms.leb_spec, (is_nan_spec _ H). reflexivity.
Qed.

Lemma nan_eqb x y : is_nan x = true -> (x =? y)%float = false.
Proof.
  intros H. rewrite FloatAxioms.eqb_spec, (is_nan_spec _ H). reflexivity.
Qed.

(** X21. A record with a NaN for latitude or longitude (which
    [from_csv_row] accepts from the text [nan]) is never inside the
    geofence and always outside it: [is_here] is false and [is_not_here]
    true, whatever the box. *)
Theorem geofence_nan (self : LocationFilter) (record : WiGLERecord) :
  is_nan (latitude record) = true \/ is_nan (longitude record) = true ->
  is_here self record = false /\ is_not_here self record = true.
Proof.
  intros H.
  assert (Hfix : no_fix record = false).
  { unfold no_fix. destruct H as [H|H]; rewrite (nan_eqb _ _ H);
      [reflexivity|apply andb_false_r]. }
  assert (Hh : is_here self record = false).
  { unfold is_here. rewrite Hfix. destruct H as [H|H].
    - now rewrite (nan_leb_r _ _ H).
    - rewrite (nan_leb_r _ _ H). simpl. apply andb_false_r. }
  split; [exact Hh|]. unfold is_not_here. now rewrite Hfix, Hh.
Qed.

Lemma geofence_nan_witness :
  is_here home_filter nan_record = false /\ is_not_here home_filter nan_record = true.
Proof. apply geofence_nan. left. vm_compute. reflexivity. Defined.

(** ** A row without a fix, through the program *)

(** X22. A row of eleven fields or more whose two coordinate fields are
    empty, or read as zero, is parsed to a record, and this record has
    no fix: the creep detector leaves it out, it is neither here nor not
    here for any geofence, and a scrub with a geofence in either mode
    drops it. *)
Theorem no_fix_row (row : list string) (s6 s7 : string) (lat lon : float) :
  (11 <= length row)%nat ->
  row !! 6%nat = Some s6 -> row !! 7%nat = Some s7 ->
  coordinate_of s6 lat -> coordinate_of s7 lon ->
  (lat =? 0)%float = true -> (lon =? 0)%float = true ->
  exists record,
    from_csv_row row = Ok (Some record) /\
    latitude record = lat /\ longitude record = lon /\
    (forall detector, CreepDetector.add_record detector record = Ok detector) /\
    (forall lf, is_here lf record = false /\ is_not_here lf record = false) /\
    (forall c lf,
       filter_records c (Some lf) (Some "here") [record] = [] /\
       filter_records c (Some lf) (Some "not_here") [record] = []).
Proof.
  intros Hlen H6 H7 Hlat Hlon Hz6 Hz7.
  destruct row as [|f0 [|f1 [|f2 [|f3 [|f4 [|f5 [|f6 [|f7 [|f8 [|f9 [|f10 row]]]]]]]]]]];
    try (simpl in Hlen; lia).
  injection H6 as ->. injection H7 as ->.
  eexists. split.
  { unfold from_csv_row.
    replace (length (f0 :: f1 :: f2 :: f3 :: f4 :: f5 :: s6 :: s7 :: f8 :: f9 :: f10 :: row)
               <? 11)%nat with false by (symmetry; apply Nat.ltb_ge; simpl; lia).
    erewrite build_record_ok; try reflexivity; eassumption. }
  split; [reflexivity|]. split; [reflexivity|].
  assert (Hfix : forall r, latitude r = lat -> longitude r = lon -> no_fix r = true).
  { intros r <- <-. unfold no_fix. now rewrite Hz6, Hz7. }
  match goal with |- context [CreepDetector.add_record _ ?r] => set (record := r) end.
  pose proof (Hfix record eq_refl eq_refl) as Hr.
  assert (Hh : forall lf, is_here lf record = false /\ is_not_here lf record = false).
  { intros lf. unfold is_not_here, is_here. now rewrite Hr. }
  split; [|split].
  - intros detector. unfold CreepDetector.add_record. now rewrite Hr.
  - exact Hh.
  - intros c lf. destruct (Hh lf) as [Hh1 Hh2].
    rewrite filter_records_here, filter_records_not_here, Hh1, Hh2.
    split; now destruct (denied c record).
Qed.

Lemma no_fix_row_witness :
  exists record,
    from_csv_row blank_row = Ok (Some record) /\
    latitude record = 0%float /\ longitude record = 0%float /\
    (forall detector, CreepDetector.add_record detector record = Ok detector) /\
    (forall lf, is_here lf record = false /\ is_not_here lf record = false) /\
    (forall c lf,
       filter_records c (Some lf) (Some "here") [record] = [] /\
       filter_records c (Some lf) (Some "not_here") [record] = []).
Proof.
  apply (no_fix_row blank_row "" "" 0 0);
    [vm_compute; lia | reflexivity | reflexivity | now left | now left
    | reflexivity | reflexivity].
Defined.

(** ** The scrub of a file *)

Lemma written_file_read_back records :
  Forall (fun r => Forall (fun f => no_cr_str f /\ fits f) (row_of_record r)) records ->
  Forall (fun r =>
    Py.float_of_string (Py.repr_float (latitude r)) = Ok (latitude r) /\
    Py.float_of_string (Py.repr_float (longitude r)) = Ok (longitude r)) records ->
  read_csv_file (write_csv_file records) = Ok records.
Proof.
  intros Hrows Hcoords. unfold read_csv_file, write_csv_file, readlines.
  rewrite universal_newlines_app by apply header_lines_no_cr.
  rewrite header_lines_split.
  change (find_data_start 0 (?l0 :: ?l1 :: ?rest)) with 2%nat.
  change (drop 2 (?l0 :: ?l1 :: ?rest)) with rest. unfold Csv.reader.
  rewrite (read_rows_split_lines _ [] Csv.parse_reset). cbn [rev map app].
  rewrite written_rows_read_back by exact Hrows.
  cbn [mbind result_bind]. now apply parse_rows_written.
Qed.

Lemma filter_records_sublist c f m records :
  sublist (filter_records c f m records) records.
Proof.
  induction records as [|r records IH]; [constructor|].
  rewrite filter_records_cons.
  repeat match goal with
         | |- context [if ?b then _ else _] => destruct b
         | |- context [match ?o with Some _ => _ | None => _ end] => destruct o
         end; (now apply sublist_cons) || (now apply sublist_skip).
Qed.

Lemma filter_records_twice c f m records :
  filter_records c f m (filter_records c f m records) = filter_records c f m records.
Proof.
  induction records as [|r records IH]; [reflexivity|].
  rewrite filter_records_cons.
  destruct (denied c r) eqn:Ed; [exact IH|].
  match goal with |- context [if ?b then _ else _] => destruct b eqn:Eo end;
    [exact IH|].
  rewrite filter_records_cons, Ed, Eo, IH. reflexivity.
Qed.

(** X23. The scrub of a file, run on its own output, writes the same
    output again: the file it wrote reads back as the records it kept,
    and the filters keep all of them. This holds when the records of the
    input are kept by a file as they are (no carriage return in a field,
    no field beyond the reader's limit, coordinates whose text reads
    back). With both [--here] and [--not-here], the mode is ['here']. *)
Theorem scrub_file_idempotent (c : option FilterConfig) (f : option LocationFilter)
    (here not_here : bool) (content output : string) (records : list WiGLERecord) :
  read_csv_file content = Ok records ->
  Forall kept_by_file records ->
  scrub_file c f here not_here content = Ok output ->
  read_csv_file output =
    Ok (filter_records c f (location_mode_of here not_here) records) /\
  scrub_file c f here not_here output = Ok output /\
  scrub_file c f true not_here content = scrub_file c f true false content.
Proof.
  intros Hread Hkept Hscrub. unfold scrub_file in *. rewrite Hread in *.
  cbn [mbind result_bind] in *. injection Hscrub as <-.
  set (kept := filter_records c f (location_mode_of here not_here) records).
  assert (Hsub : Forall kept_by_file kept).
  { rewrite Forall_forall in *. intros r Hr. apply Hkept.
    eapply elem_of_sublist; [exact Hr|apply filter_records_sublist]. }
  assert (Hback : read_csv_file (write_csv_file kept) = Ok kept).
  { apply written_file_read_back.
    - eapply Forall_impl; [exact Hsub|]. now intros r (? & _).
    - eapply Forall_impl; [exact Hsub|]. now intros r (_ & ? & ?). }
  split; [exact Hback|]. split; [|reflexivity].
  rewrite Hback. cbn [mbind result_bind]. unfold kept. now rewrite filter_records_twice.
Qed.

Lemma scrub_file_idempotent_witness :
  read_csv_file (write_csv_file [home_record]) =
    Ok (filter_records None (Some home_filter) (location_mode_of true true)
          [home_record; lost_record]) /\
  scrub_file None (Some home_filter) true true (write_csv_file [home_record]) =
    Ok (write_csv_file [home_record]) /\
  scrub_file None (Some home_filter) true true (write_csv_file [home_record; lost_record]) =
  scrub_file None (Some home_filter) true false (write_csv_file [home_record; lost_record]).
Proof.
  apply (scrub_file_idempotent None (Some home_filter) true true
           (write_csv_file [home_record; lost_record]) (write_csv_file [home_record])
           [home_record; lost_record]).
  - vm_compute. reflexivity.
  - repeat (constructor;
            [split; [apply (bool_decide_unpack _); vm_compute; exact I
                    |split; vm_compute; reflexivity]|]).
    constructor.
  - vm_compute. reflexivity.
Defined.

(** ** The round trip of the records of a file *)

(** *** No field beyond the limit comes from a file *)












(** *** The text of a float *)




















(** The texts of the zeros, the infinities and the NaN read back: the
    condition on the coordinates is one on the finite values that are
    not zero, where [repr] looks for the shortest digits. *)
Lemma special_floats_read_back x :
  Py.is_finite x = false \/ (x =? 0)%float = true ->
  Py.float_of_string (Py.repr_float x) = Ok x.
Proof.
  intros H. rewrite <- (SF2Prim_Prim2SF x) at 2.
  assert (H' : match Prim2SF x with S754_finite _ _ _ => False | _ => True end).
  { unfold Py.is_finite in H. rewrite FloatAxioms.eqb_spec in H.
    change (Prim2SF 0) with (S754_zero false) in H.
    destruct (Prim2SF x) as [s|s| |s m e]; try exact I.
    destruct H as [H|H]; [discriminate H|].
    destruct s; discriminate H. }
  unfold Py.repr_float.
  destruct (Prim2SF x) as [[]|[]| |s m e]; [| | | | |contradiction];
    vm_compute; reflexivity.
Qed.

(** *** The records of a file, written and read again *)



